(** * Mentat: patch application and diff annotation

    A shallow embedding of [mentat/diff_context.py] (the diff parser and the
    annotation weaver) and of the change-application part of
    [mentat/code_file_manager.py], with the properties of the specification
    stated and proved over the embedded functions.

    Python strings are modelled by [string]: a sequence of code points below
    256.  Python integers are [Z]; line positions of a change, which the
    program stores as integers or half-integers, are [Q]. *)

From Stdlib Require Import String Ascii List ZArith QArith Qround Lia Bool.
From stdpp Require Import gmap strings list pretty sorting.

Open Scope Z_scope.

(** ** Outcomes of a Python call: a value or a raised exception *)

Inductive exn : Type :=
| UserError (msg : string)
| MentatError (msg : string)
| PlainException (msg : string)
| IndexError
| ValueError
| KeyError
| OSError.

Inductive result (A : Type) : Type :=
| Ok (a : A)
| Raise (e : exn).

Arguments Ok {A} a.
Arguments Raise {A} e.

Definition rbind {A B} (r : result A) (k : A -> result B) : result B :=
  match r with
  | Ok a => k a
  | Raise e => Raise e
  end.

(** ** The string methods the program calls *)

Module PyStr.

Definition code (c : ascii) : nat := nat_of_ascii c.

Definition is_empty (s : string) : bool :=
  match s with
  | EmptyString => true
  | String _ _ => false
  end.

(** [s.startswith(p)] *)
Definition startswith (s p : string) : bool := String.prefix p s.

(** [c in s] for a one-character [c]. *)
Fixpoint contains (c : ascii) (s : string) : bool :=
  match s with
  | EmptyString => false
  | String d r => Ascii.eqb c d || contains c r
  end.

(** [s[1:]] *)
Definition tail (s : string) : string :=
  match s with
  | EmptyString => EmptyString
  | String _ r => r
  end.

(** [s.split(sep)] for a one-character separator: never empty. *)
Fixpoint split (sep : ascii) (s : string) : list string :=
  match s with
  | EmptyString => [EmptyString]
  | String c r =>
      if Ascii.eqb c sep then EmptyString :: split sep r
      else match split sep r with
           | h :: t => String c h :: t
           | [] => [String c EmptyString]
           end
  end.

(** The line boundaries of [str.splitlines] among code points below 256:
    LF, VT, FF, CR, FS, GS, RS and NEL; CR LF counts as one. *)
Definition is_line_boundary (c : ascii) : bool :=
  let n := code c in
  Nat.eqb n 10 || Nat.eqb n 11 || Nat.eqb n 12 || Nat.eqb n 13
  || Nat.eqb n 28 || Nat.eqb n 29 || Nat.eqb n 30 || Nat.eqb n 133.

Fixpoint splitlines_from (cur s : string) : list string :=
  match s with
  | EmptyString => if is_empty cur then [] else [cur]
  | String c rest =>
      if is_line_boundary c then
        cur :: match rest with
               | String c' rest' =>
                   if Nat.eqb (code c) 13 && Nat.eqb (code c') 10
                   then splitlines_from EmptyString rest'
                   else splitlines_from EmptyString rest
               | EmptyString => splitlines_from EmptyString rest
               end
      else splitlines_from (cur +:+ String c EmptyString) rest
  end.

(** [s.splitlines()] *)
Definition splitlines (s : string) : list string :=
  splitlines_from EmptyString s.

(** White space as [str.strip] takes it off, among code points below 256. *)
Definition is_space (c : ascii) : bool :=
  let n := code c in
  (Nat.leb 9 n && Nat.leb n 13) || (Nat.leb 28 n && Nat.leb n 32)
  || Nat.eqb n 133 || Nat.eqb n 160.

(** White space as [int] takes it off: the white space of ASCII as C has
    it, and NEL and NBSP, which [int] turns into spaces first.  The
    separators FS, GS, RS and US count as characters of the number, so they
    make [int] fail. *)
Definition is_int_space (c : ascii) : bool :=
  let n := code c in
  (Nat.leb 9 n && Nat.leb n 13) || Nat.eqb n 32
  || Nat.eqb n 133 || Nat.eqb n 160.

Fixpoint lstrip_of (space : ascii -> bool) (s : string) : string :=
  match s with
  | EmptyString => EmptyString
  | String c r => if space c then lstrip_of space r else s
  end.

Fixpoint rstrip_of (space : ascii -> bool) (s : string) : string :=
  match s with
  | EmptyString => EmptyString
  | String c r =>
      let r' := rstrip_of space r in
      if space c && is_empty r' then EmptyString else String c r'
  end.

Definition lstrip (s : string) : string := lstrip_of is_space s.

Definition rstrip (s : string) : string := rstrip_of is_space s.

Definition digit_of (c : ascii) : option Z :=
  let n := code c in
  if Nat.leb 48 n && Nat.leb n 57 then Some (Z.of_nat n - 48) else None.

(** Decimal digits, with single underscores allowed between digits. *)
Fixpoint int_digits (acc : Z) (after_digit : bool) (s : string) : option Z :=
  match s with
  | EmptyString => if after_digit then Some acc else None
  | String c r =>
      match digit_of c with
      | Some d => int_digits (10 * acc + d) true r
      | None =>
          if Ascii.eqb c "_" && after_digit then int_digits acc false r
          else None
      end
  end.

(** The number of digits of a string, and the most that [int] converts:
    the default of [sys.int_info.default_max_str_digits]. *)
Fixpoint count_digits (s : string) : nat :=
  match s with
  | EmptyString => 0%nat
  | String c r =>
      match digit_of c with
      | Some _ => S (count_digits r)
      | None => count_digits r
      end
  end.

Definition max_str_digits : nat := 4300.

(** [int(s)]: [None] stands for [ValueError]. *)
Definition int (s : string) : option Z :=
  let t := rstrip_of is_int_space (lstrip_of is_int_space s) in
  if Nat.ltb max_str_digits (count_digits t) then None
  else
    match t with
    | String "+" r => int_digits 0 false r
    | String "-" r => Z.opp <$> int_digits 0 false r
    | _ => int_digits 0 false t
    end.

(** Normalisation of a slice bound against a sequence of length [len]. *)
Definition clamp (len i : Z) : Z :=
  if i <? 0 then Z.max 0 (i + len) else Z.min i len.

(** [l[lo:hi]] *)
Definition slice {A} (l : list A) (lo hi : Z) : list A :=
  let len := Z.of_nat (length l) in
  let lo' := clamp len lo in
  let hi' := clamp len hi in
  firstn (Z.to_nat (hi' - lo')) (skipn (Z.to_nat lo') l).

(** [l[lo:]] *)
Definition slice_from {A} (l : list A) (lo : Z) : list A :=
  let len := Z.of_nat (length l) in
  skipn (Z.to_nat (clamp len lo)) l.

(** [f"{n}:{line}"] *)
Definition tagged (n : Z) (line : string) : string :=
  pretty n +:+ ":" +:+ line.

End PyStr.

(** ** mentat/diff_context.py *)

Record DiffAnnotation : Type := mkDiffAnnotation {
  start : Z;
  message : list string
}.

(** The [length] property: the number of lines that start with a plus. *)
Definition DiffAnnotation_length (a : DiffAnnotation) : Z :=
  fold_right (fun line acc => (if PyStr.startswith line "+" then 1 else 0) + acc)
    0 (message a).

(** [line.startswith(("---", "+++", "//"))] *)
Definition is_ignored_prefix (line : string) : bool :=
  PyStr.startswith line "---" || PyStr.startswith line "+++"
  || PyStr.startswith line "//".

Definition is_hunk_header (line : string) : bool := PyStr.startswith line "@@".

(** [line.startswith(("+", "-"))] *)
Definition is_change_line (line : string) : bool :=
  PyStr.startswith line "+" || PyStr.startswith line "-".

(** Lines 39 to 44 of [_parse_diff]: the start of the new range of a hunk
    header. *)
Definition new_start_of (line : string) : result Z :=
  match nth_error (PyStr.split " " line) 2 with
  | None => Raise IndexError
  | Some _new_index =>
      let new_start :=
        if PyStr.contains "," _new_index
        then hd EmptyString (PyStr.split "," (PyStr.tail _new_index))
        else PyStr.tail _new_index in
      match PyStr.int new_start with
      | Some n => Ok n
      | None => Raise ValueError
      end
  end.

(** The loop state of [_parse_diff]: [annotations] and [active_annotation]. *)
Definition parse_state : Type := (list DiffAnnotation * option DiffAnnotation)%type.

Definition flush (st : parse_state) : list DiffAnnotation :=
  match snd st with
  | Some a => fst st ++ [a]
  | None => fst st
  end.

(** One iteration of the loop of [_parse_diff]. *)
Definition parse_line (st : parse_state) (line : string) : result parse_state :=
  if is_ignored_prefix line then Ok st
  else if is_hunk_header line then
    rbind (new_start_of line) (fun new_start =>
      Ok (flush st, Some (mkDiffAnnotation new_start [])))
  else if is_change_line line then
    match snd st with
    | None => Raise (UserError "Invalid diff")
    | Some a =>
        Ok (fst st, Some (mkDiffAnnotation (start a) (message a ++ [line])))
    end
  else Ok st.

Fixpoint parse_lines (st : parse_state) (lines : list string) : result parse_state :=
  match lines with
  | [] => Ok st
  | line :: rest => rbind (parse_line st line) (fun st' => parse_lines st' rest)
  end.

(** [list.sort(key=lambda a: a.start)]: a stable sort. *)
Fixpoint insert_by_start (a : DiffAnnotation) (l : list DiffAnnotation) : list DiffAnnotation :=
  match l with
  | [] => [a]
  | b :: l' => if start a <=? start b then a :: b :: l' else b :: insert_by_start a l'
  end.

Fixpoint sort_by_start (l : list DiffAnnotation) : list DiffAnnotation :=
  match l with
  | [] => []
  | a :: l' => insert_by_start a (sort_by_start l')
  end.

Definition _parse_diff (diff : string) : result (list DiffAnnotation) :=
  let lines := PyStr.splitlines diff in
  rbind (parse_lines ([], None) (skipn 4 lines)) (fun st =>
    Ok (sort_by_start (flush st))).

(** The state of the weaver: [active_index], [annotated_message] and, inside
    an annotation, [i_minus]. *)
Record weave_state : Type := mkWeave {
  active_index : Z;
  annotated_message : list string
}.

(** One iteration of the inner loop of [_annotate_file_message]. *)
Definition weave_line (a_start : Z) (st : weave_state * option Z) (line : string)
  : result (weave_state * option Z) :=
  let '(w, i_minus) := st in
  match line with
  | EmptyString => Raise IndexError
  | String sign _ =>
      if Ascii.eqb sign "+" then
        Ok (mkWeave (active_index w + 1)
              (annotated_message w ++ [PyStr.tagged (active_index w) line]),
            None)
      else if Ascii.eqb sign "-" then
        let i := match i_minus with None => 0 | Some i => i end in
        Ok (mkWeave (active_index w)
              (annotated_message w ++ [PyStr.tagged (a_start + i) line]),
            Some (i + 1))
      else Ok st
  end.

Fixpoint weave_lines (a_start : Z) (st : weave_state * option Z) (lines : list string)
  : result (weave_state * option Z) :=
  match lines with
  | [] => Ok st
  | line :: rest =>
      rbind (weave_line a_start st line) (fun st' => weave_lines a_start st' rest)
  end.

(** One iteration of the outer loop of [_annotate_file_message]. *)
Definition weave_annotation (code_message : list string) (w : weave_state)
  (annotation : DiffAnnotation) : result weave_state :=
  let out1 :=
    if active_index w <? start annotation
    then annotated_message w ++ PyStr.slice code_message (active_index w) (start annotation)
    else annotated_message w in
  rbind
    (if start annotation =? 0 then
       match code_message with
       | [] => Raise IndexError
       | path :: _ => Ok (mkWeave (start annotation + 1) (out1 ++ [path]))
       end
     else Ok (mkWeave (start annotation) out1))
    (fun w1 => rbind (weave_lines (start annotation) (w1, None) (message annotation))
                 (fun st => Ok (fst st))).

Fixpoint weave_annotations (code_message : list string) (w : weave_state)
  (annotations : list DiffAnnotation) : result weave_state :=
  match annotations with
  | [] => Ok w
  | a :: rest =>
      rbind (weave_annotation code_message w a) (fun w' =>
        weave_annotations code_message w' rest)
  end.

Definition _annotate_file_message (code_message : list string)
  (annotations : list DiffAnnotation) : result (list string) :=
  rbind (weave_annotations code_message (mkWeave 0 []) annotations) (fun w =>
    Ok (if active_index w <? Z.of_nat (length code_message)
        then annotated_message w ++ PyStr.slice_from code_message (active_index w)
        else annotated_message w)).

(** [DiffContext.annotate_file_message] once the diff text is at hand. *)
Definition annotate_with_diff (diff : string) (file_message : list string)
  : result (list string) :=
  rbind (_parse_diff diff) (fun annotations =>
    _annotate_file_message file_message annotations).

(** *** Notions used to state the properties of the parser and the weaver *)

(** The lines of a diff text after its four header lines. *)
Definition body_of (diff : string) : list string :=
  skipn 4 (PyStr.splitlines diff).

(** A line that starts with a plus or a minus, and with neither of the
    file markers. *)
Definition is_content_line (line : string) : bool :=
  is_change_line line
  && negb (PyStr.startswith line "---") && negb (PyStr.startswith line "+++").

(** Some content line comes before any hunk header. *)
Definition premature_content (lines : list string) : Prop :=
  exists pre line post,
    lines = pre ++ line :: post
    /\ is_content_line line = true
    /\ Forall (fun l => is_hunk_header l = false) pre.

Fixpoint premature_contentb (lines : list string) : bool :=
  match lines with
  | [] => false
  | line :: rest =>
      if is_hunk_header line then false
      else is_content_line line || premature_contentb rest
  end.

(** A hunk header from which lines 39 to 44 get a start. *)
Definition header_is_parsable (line : string) : Prop :=
  is_hunk_header line = true -> exists n, new_start_of line = Ok n.

Definition nl : string := String (ascii_of_nat 10) EmptyString.

Definition unlines (ls : list string) : string :=
  fold_right (fun l acc => l +:+ nl +:+ acc) EmptyString ls.

(** The four header lines of the diff of one file. *)
Definition hdr : list string :=
  [ "diff --git a/multifile_calculator/operations.py b/multifile_calculator/operations.py";
    "index 1111111..2222222 100644";
    "--- a/multifile_calculator/operations.py";
    "+++ b/multifile_calculator/operations.py" ].

(** Scenario D as the specification words it: the hunk header, the body,
    and a listing whose last entry is numbered 14. *)
Definition diff_D : string :=
  unlines (hdr ++ ["@@ -1,3 +1,3 @@"; "-    return a / b"; "+    return commit3"]).

Definition listing_D : list string :=
  "multifile_calculator/operations.py"
    :: map (fun i => PyStr.tagged i "") (seqZ 0 14)
    ++ ["14:    return a / b" +:+ nl].

(** The diff that [git diff -U0] gives for the test
    [test_diff_context_commit], and the listing that the test builds: the
    path, then the fourteen lines of the file numbered from 0. *)
Definition diff_fixture : string :=
  unlines (hdr ++ ["@@ -14 +14 @@ def divide_numbers(a, b):";
                   "-    return a / b"; "+    return commit3"]).

Definition listing_fixture : list string :=
  "/multifile_calculator/operations.py"
    :: map (fun i => PyStr.tagged i ("line" +:+ nl)) (seqZ 0 13)
    ++ ["13:    return commit3" +:+ nl].

(** A diff whose only hunk header carries no range. *)
Definition diff_bare_header : string := unlines (hdr ++ ["@@"]).

(** The number of lines that start with a plus. *)
Definition count_plus (lines : list string) : Z :=
  Z.of_nat (length (List.filter (fun line => PyStr.startswith line "+") lines)).

(** Walking back from a line over the lines before it, the latest first:
    the number of lines that start with a minus, up to the nearest line that
    starts with a plus. *)
Fixpoint minus_run_back (latest_first : list string) : Z :=
  match latest_first with
  | [] => 0
  | line :: earlier =>
      if PyStr.startswith line "+" then 0
      else (if PyStr.startswith line "-" then 1 else 0) + minus_run_back earlier
  end.

Definition minus_run (before : list string) : Z := minus_run_back (rev before).

(** What the weaver emits for one line of a message, given the lines of the
    message before it, the start of the annotation and the cursor at which
    the message began. *)
Definition emitted_line (a_start cursor : Z) (before : list string) (line : string)
  : list string :=
  if PyStr.startswith line "+" then [PyStr.tagged (cursor + count_plus before) line]
  else if PyStr.startswith line "-" then [PyStr.tagged (a_start + minus_run before) line]
  else [].

Fixpoint emitted_after (a_start cursor : Z) (before rest : list string) : list string :=
  match rest with
  | [] => []
  | line :: rest' =>
      emitted_line a_start cursor before line
      ++ emitted_after a_start cursor (before ++ [line]) rest'
  end.

Definition emitted (a_start cursor : Z) (msg : list string) : list string :=
  emitted_after a_start cursor [] msg.

(** The cursor at which the message of an annotation begins: its start, or
    one past the path when the start is 0. *)
Definition entry_cursor (a : DiffAnnotation) : Z :=
  if start a =? 0 then 1 else start a.

(** The woven listing, from a cursor on: for each annotation the lines of
    the listing from the cursor up to its start, the path again when the
    start is 0, the lines of its message with their tags; at the end the
    lines of the listing from the cursor on. *)
Fixpoint woven (code_message : list string) (cursor : Z)
  (annotations : list DiffAnnotation) : list string :=
  match annotations with
  | [] =>
      if cursor <? Z.of_nat (length code_message)
      then PyStr.slice_from code_message cursor else []
  | a :: rest =>
      (if cursor <? start a then PyStr.slice code_message cursor (start a) else [])
      ++ (if start a =? 0 then firstn 1 code_message else [])
      ++ emitted (start a) (entry_cursor a) (message a)
      ++ woven code_message (entry_cursor a + DiffAnnotation_length a) rest
  end.

(** *** Diffs without context lines, hunk by hunk *)

(** A hunk of a unified diff made without context lines: its header, the
    starts that the header gives for the old and for the new file, the
    removed lines (each with its minus) and the added lines (each with its
    plus), and whether the removed lines, and the added lines, are followed
    by the marker that [git] puts after the last line of a file that does
    not end in a line feed. *)
Record hunk : Type := mkHunk {
  header : string;
  old_start : Z;
  new_start : Z;
  removed : list string;
  added : list string;
  old_no_newline : bool;
  new_no_newline : bool
}.

Definition no_newline_marker : string := "\ No newline at end of file".

Definition marker_if (b : bool) : list string :=
  if b then [no_newline_marker] else [].

(** The start of the old range of a hunk header [@@ -start,count +... @@]:
    the field before the one that [new_start_of] reads. *)
Definition old_start_of (line : string) : result Z :=
  match nth_error (PyStr.split " " line) 1 with
  | None => Raise IndexError
  | Some _old_index =>
      let old_start :=
        if PyStr.contains "," _old_index
        then hd EmptyString (PyStr.split "," (PyStr.tail _old_index))
        else PyStr.tail _old_index in
      match PyStr.int old_start with
      | Some n => Ok n
      | None => Raise ValueError
      end
  end.

Definition hunk_lines (h : hunk) : list string :=
  header h :: removed h ++ marker_if (old_no_newline h)
    ++ added h ++ marker_if (new_no_newline h).

Definition removed_line (line : string) : Prop :=
  PyStr.startswith line "-" = true /\ PyStr.startswith line "---" = false.

Definition added_line (line : string) : Prop :=
  PyStr.startswith line "+" = true /\ PyStr.startswith line "+++" = false.

(** The new start is 0 only for a hunk that adds nothing at the top of the
    file. *)
Definition well_formed_hunk (h : hunk) : Prop :=
  is_hunk_header (header h) = true
  /\ old_start_of (header h) = Ok (old_start h)
  /\ new_start_of (header h) = Ok (new_start h)
  /\ Forall removed_line (removed h)
  /\ Forall added_line (added h)
  /\ 0 <= new_start h
  /\ (new_start h = 0 -> added h = []).

(** The new start of a hunk is where its lines belong in the new file:
    the number of its first added line, or 0 for lines removed at the top
    of the file.  A hunk that only removes lines further down carries as
    its new start the number of the line before them. *)
Definition anchored (h : hunk) : Prop := added h = [] -> new_start h = 0.

(** The position in the listing at which the lines of a hunk come in, and
    the position after its added lines. *)
Definition hunk_entry (h : hunk) : Z :=
  if new_start h =? 0 then 1 else new_start h.

Definition hunk_exit (h : hunk) : Z :=
  hunk_entry h + Z.of_nat (length (added h)).

(** Hunks in ascending order that do not overlap in the new file. *)
Fixpoint hunks_in_order (cursor : Z) (hunks : list hunk) : Prop :=
  match hunks with
  | [] => True
  | h :: rest => cursor <= new_start h /\ hunks_in_order (hunk_exit h) rest
  end.

Definition annotation_of (h : hunk) : DiffAnnotation :=
  mkDiffAnnotation (new_start h) (removed h ++ added h).

(** Lines tagged with consecutive numbers from [n] on. *)
Fixpoint tag_from (n : Z) (lines : list string) : list string :=
  match lines with
  | [] => []
  | line :: rest => PyStr.tagged n line :: tag_from (n + 1) rest
  end.

(** The block of a hunk in the woven listing: the removed lines and then
    the added lines, both numbered from the new start. *)
Definition hunk_block (h : hunk) : list string :=
  tag_from (new_start h) (removed h) ++ tag_from (new_start h) (added h).

(** The entries of a listing at the positions from [lo] up to [hi]. *)
Definition segment (listing : list string) (lo hi : Z) : list string :=
  firstn (Z.to_nat (hi - lo)) (skipn (Z.to_nat lo) listing).

(** The listing with a block put in for each hunk, from a cursor on. *)
Fixpoint interleaved (block : hunk -> list string) (listing : list string)
  (cursor : Z) (hunks : list hunk) : list string :=
  match hunks with
  | [] => skipn (Z.to_nat cursor) listing
  | h :: rest =>
      segment listing cursor (hunk_entry h)
      ++ block h
      ++ interleaved block listing (hunk_exit h) rest
  end.

(** The position [i] holds a line that a hunk added. *)
Definition in_added_region (i : Z) (h : hunk) : bool :=
  (new_start h <=? i) && (i <? new_start h + Z.of_nat (length (added h))).

(** The entries of a listing, whose first entry is at position [i], that no
    hunk added. *)
Fixpoint outside_from (i : Z) (listing : list string) (hunks : list hunk)
  : list string :=
  match listing with
  | [] => []
  | entry :: rest =>
      (if existsb (in_added_region i) hunks then [] else [entry])
      ++ outside_from (i + 1) rest hunks
  end.

(** The claim on removed lines as the specification words it: each removed
    line shows in the output under the number it had in the old file. *)
Definition removed_at_old_numbers (hunks : list hunk) (out : list string) : Prop :=
  forall h j line,
    In h hunks -> nth_error (removed h) j = Some line ->
    In (PyStr.tagged (old_start h + Z.of_nat j) line) out.

(** The second line of a two-line file is deleted. *)
Definition hunks_deletion : list hunk :=
  [mkHunk "@@ -2 +1,0 @@" 2 1 ["-b"] [] false false].

Definition diff_deletion : string :=
  unlines (hdr ++ flat_map hunk_lines hunks_deletion).

Definition listing_deletion : list string := ["p.py"; "1:a"; ""].

(** A line is put in at the top and the last line is replaced. *)
Definition hunks_two : list hunk :=
  [mkHunk "@@ -0,0 +1 @@" 0 1 [] ["+x"] false false;
   mkHunk "@@ -2 +3 @@" 2 3 ["-b"] ["+c"] false false].

Definition diff_two : string := unlines (hdr ++ flat_map hunk_lines hunks_two).

Definition listing_two : list string := ["p.py"; "1:x"; "2:a"; "3:c"; ""].

(** The same change to a file that does not end in a line feed, before and
    after: both sides of the last hunk carry the marker. *)
Definition hunks_open_end : list hunk :=
  [mkHunk "@@ -0,0 +1 @@" 0 1 [] ["+x"] false false;
   mkHunk "@@ -2 +3 @@" 2 3 ["-b"] ["+c"] true true].

Definition diff_open_end : string :=
  unlines (hdr ++ flat_map hunk_lines hunks_open_end).

(** The first line of a two-line file is deleted. *)
Definition hunks_top_deletion : list hunk :=
  [mkHunk "@@ -1 +0,0 @@" 1 0 ["-x"] [] false false].

Definition diff_top_deletion : string :=
  unlines (hdr ++ flat_map hunk_lines hunks_top_deletion).

(** *** Further notions on the weaver *)

(** An annotation that the weaver can go through over a listing: no line
    of its message is empty, and it does not start at 0 when there is no
    first entry to put back. *)
Definition weavable (code_message : list string) (a : DiffAnnotation) : Prop :=
  Forall (fun line => line <> EmptyString) (message a)
  /\ (code_message = [] -> start a <> 0).

(** *** The rest of mentat/diff_context.py *)

(** [s.strip()] *)
Definition strip (s : string) : string := PyStr.rstrip (PyStr.lstrip s).

(** A string that counts as true: neither [None] nor empty. *)
Definition truthy (s : option string) : bool :=
  match s with
  | Some (String _ _) => true
  | _ => false
  end.

(** The fields that [DiffContext.__init__] sets besides [config]. *)
Record DiffContext : Type := mkDiffContext {
  target : string;
  dc_name : string
}.

Inductive TreeishType : Type := commit | branch | relative.

Section GitHandler.

(** What is not part of the sources at hand: the run of [git] with its
    arguments in the repository ([None] when it exits with an error), and
    [get_treeish_metadata] of [git_handler], which gives the hash and the
    summary of a commit. *)
Variable git : list string -> option string.
Variable get_treeish_metadata : string -> string * string.

Definition _git_command (args : list string) : option string :=
  strip <$> git args.

Definition _get_treeish_type (treeish : string) : result TreeishType :=
  let object_type := _git_command ["cat-file"; "-t"; treeish] in
  if negb (truthy object_type) then Raise (UserError ("Invalid treeish: " +:+ treeish))
  else if String.eqb (default EmptyString object_type) "commit" then
    if PyStr.contains "~" treeish || PyStr.contains "^" treeish then Ok relative
    else if truthy (_git_command ["show-ref"; "--heads"; treeish]) then Ok branch
    else Ok commit
  else Raise (UserError ("Unsupported treeish type: " +:+ default EmptyString object_type)).

Definition get_diff_context (diff pr_diff : option string) : result DiffContext :=
  if truthy diff && truthy pr_diff
  then Raise (UserError "Cannot specify more than one type of diff.")
  else
    let target := if truthy diff then diff else pr_diff in
    if negb (truthy target) then Ok (mkDiffContext "HEAD" "HEAD (last commit)")
    else
      let target := default EmptyString target in
      rbind (_get_treeish_type target) (fun treeish_type =>
        let name :=
          match treeish_type with
          | branch => "Branch " +:+ target +:+ ": "
          | relative => target +:+ ": "
          | commit => EmptyString
          end in
        rbind
          (if truthy pr_diff then
             match _git_command ["merge-base"; "HEAD"; default EmptyString pr_diff] with
             | Some (String c base) => Ok ("Merge-base " +:+ name, String c base)
             | _ => Raise (UserError ("Cannot identify merge base between HEAD and "
                                      +:+ default EmptyString pr_diff))
             end
           else Ok (name, target))
          (fun '(name, target) =>
             let meta := get_treeish_metadata target in
             Ok (mkDiffContext target
                   (name +:+ String.substring 0 8 (fst meta) +:+ ": " +:+ snd meta)))).

End GitHandler.

(** A repository in which [main] is a branch and [0123456789abcdef] the
    commit where it left [HEAD], for the theorems on [get_diff_context]. *)
Definition demo_git (args : list string) : option string :=
  if decide (args = ["cat-file"; "-t"; "main"]) then Some ("commit" +:+ nl)
  else if decide (args = ["show-ref"; "--heads"; "main"])
  then Some ("89abcdef01234567 refs/heads/main" +:+ nl)
  else if decide (args = ["merge-base"; "HEAD"; "main"])
  then Some ("0123456789abcdef" +:+ nl)
  else None.

Definition demo_metadata (treeish : string) : string * string :=
  (treeish, "add testbed").

(** ** mentat/code_file_manager.py *)

Inductive CodeChangeAction : Type :=
| Insert | Replace | Delete | CreateFile | DeleteFile | RenameFile.

(** The fields of a [CodeChange] that the file manager reads.  The class
    itself lives in [code_change.py]; its positions are integers or
    half-integers (an insertion between two lines). *)
Record CodeChange : Type := mkCodeChange {
  file : string;
  action : CodeChangeAction;
  first_changed_line : Q;
  last_changed_line : Q;
  code_lines : list string;
  name : string
}.

Record CodeFile : Type := mkCodeFile { path : string }.

(** What a path of the file system holds. *)
Inductive node : Type :=
| RegularFile (content : string)
| Directory.

Inductive event : Type :=
| Logged (msg : string)
| Printed (msg : string).

(** The state the file manager works on: the file system, the tracked files
    [code_context.files], the cache [self.file_lines], what the user will
    answer, and what was logged and printed so far. *)
Record World : Type := mkWorld {
  disk : gmap string node;
  files : gmap string CodeFile;
  file_lines : gmap string (list string);
  answers : list (option bool);
  output : list event
}.

Definition M (A : Type) : Type := World -> result A * World.

Definition ret {A} (a : A) : M A := fun w => (Ok a, w).

Definition raise {A} (e : exn) : M A := fun w => (Raise e, w).

Definition bind {A B} (m : M A) (k : A -> M B) : M B :=
  fun w =>
    match m w with
    | (Ok a, w') => k a w'
    | (Raise e, w') => (Raise e, w')
    end.

Notation "x <- m ;; k" := (bind m (fun x => k))
  (at level 100, m at next level, right associativity).
Notation "m ;;; k" := (bind m (fun _ => k))
  (at level 100, right associativity).

Definition emit (e : event) : M unit :=
  fun w => (Ok tt, mkWorld (disk w) (files w) (file_lines w) (answers w) (output w ++ [e])).

Definition set_disk (d : gmap string node) : M unit :=
  fun w => (Ok tt, mkWorld d (files w) (file_lines w) (answers w) (output w)).

Definition set_files (f : gmap string CodeFile) : M unit :=
  fun w => (Ok tt, mkWorld (disk w) f (file_lines w) (answers w) (output w)).

Definition set_file_lines (l : gmap string (list string)) : M unit :=
  fun w => (Ok tt, mkWorld (disk w) (files w) l (answers w) (output w)).

Definition get {A} (proj : World -> A) : M A := fun w => (Ok (proj w), w).

(** Modelled from the spec: [UserInputManager.ask_yes_no], whose module is not
    part of the sources at hand.  A yes/no question with a stated default,
    answered by the user: an explicit answer is returned, an empty answer
    gives the default, and no answer at all counts as no. *)
Definition ask_yes_no (default_yes : bool) : M bool :=
  fun w =>
    match answers w with
    | [] => (Ok false, w)
    | a :: rest =>
        (Ok (match a with Some b => b | None => default_yes end),
         mkWorld (disk w) (files w) (file_lines w) rest (output w))
    end.

(** What [f.read()] gives for a file opened with [open(abs_path, "r")]:
    the text of the file with every CR LF and every CR left alone turned
    into LF. *)
Fixpoint universal_newlines (text : string) : string :=
  match text with
  | EmptyString => EmptyString
  | String c rest =>
      if Nat.eqb (PyStr.code c) 13 then
        String (ascii_of_nat 10)
          match rest with
          | String c' rest' =>
              if Nat.eqb (PyStr.code c') 10 then universal_newlines rest'
              else universal_newlines rest
          | EmptyString => EmptyString
          end
      else String c (universal_newlines rest)
  end.

(** ["\n".join(lines)] and [text.split("\n")] *)
Definition join_lines (lines : list string) : string :=
  String.concat (String (ascii_of_nat 10) EmptyString) lines.

Definition split_lines (text : string) : list string :=
  PyStr.split (ascii_of_nat 10) text.

Fixpoint same_lines (a b : list string) : bool :=
  match a, b with
  | [], [] => true
  | x :: a', y :: b' => String.eqb x y && same_lines a' b'
  | _, _ => false
  end.

(** Lines 181 to 184 of [_get_new_code_lines]: empty lines are appended
    when the largest changed line lies past the position after the last
    line of the buffer. *)
Definition pad_tail (new_code_lines : list string) (largest_changed_line : Z)
  : list string :=
  let last_line := Z.of_nat (length new_code_lines) + 1 in
  if largest_changed_line >? last_line
  then new_code_lines ++ repeat EmptyString (Z.to_nat (largest_changed_line - last_line))
  else new_code_lines.

Definition overlap_error (change : CodeChange) : exn :=
  MentatError ("Change line number overlap in file " +:+ file change).

(** A small world, with one tracked file under the root [/r], and small
    changes, at which the theorems below are instantiated. *)
Definition demo_change (f l : Q) : CodeChange :=
  mkCodeChange "a.py" Replace f l ["x"] "".

Definition demo_world (snapshot : list string) (on_disk : string)
  (ans : list (option bool)) : World :=
  mkWorld (<[ "/r" := Directory ]> {[ "/r/a.py" := RegularFile on_disk ]})
          {[ "/r/a.py" := mkCodeFile "/r/a.py" ]}
          {[ "a.py" := snapshot ]} ans [].

Definition demo_root (rel : string) : string := "/r/" +:+ rel.

Definition demo_parents (abs_path : string) : list string := ["/r"].

Definition demo_resolve (changes : list CodeChange) : M (list CodeChange) :=
  ret changes.

Definition demo_apply (change : CodeChange) (lines : list string) : list string :=
  let lo := Z.to_nat (Qceiling (first_changed_line change) - 1) in
  let hi := Z.to_nat (Qfloor (last_changed_line change)) in
  firstn lo lines ++ code_lines change ++ skipn hi lines.

Section CodeFileManager.

Set Default Proof Using "Type".

(** The collaborators of the file manager whose modules are not part of
    the sources at hand: [config.git_root / rel_path], the directories
    above a path as [pathlib] gives them (the outermost first), the ordering
    of [sorted(changes, reverse=True)], the two conflict resolvers and
    [CodeChange.apply]. *)
Variable git_root_join : string -> string.
Variable parents_of : string -> list string.
Variable sorted_reverse : list CodeChange -> list CodeChange.
Variable resolve_insertion_conflicts : list CodeChange -> M (list CodeChange).
Variable resolve_non_insertion_conflicts : list CodeChange -> M (list CodeChange).
Variable CodeChange_apply : CodeChange -> list string -> list string.

(** Lines 35 to 44: the file is read in text mode and split at LF. *)
Definition _read_file (rel_path : string) : M (list string) :=
  d <- get disk ;;
  match d !! git_root_join rel_path with
  | Some (RegularFile text) => ret (split_lines (universal_newlines text))
  | Some Directory => raise OSError
  | None => raise OSError
  end.

(** [with open(abs_path, "w") as f: f.write("\n".join(lines))]: the
    directory that is to hold a new file has to be there.  The text is
    stored as it is written, the line separator of the system being LF. *)
Definition write_file (abs_path : string) (lines : list string) : M unit :=
  d <- get disk ;;
  match d !! abs_path with
  | Some Directory => raise OSError
  | Some (RegularFile _) => set_disk (<[abs_path := RegularFile (join_lines lines)]> d)
  | None =>
      match last (parents_of abs_path) with
      | None => set_disk (<[abs_path := RegularFile (join_lines lines)]> d)
      | Some parent =>
          match d !! parent with
          | Some Directory => set_disk (<[abs_path := RegularFile (join_lines lines)]> d)
          | _ => raise OSError
          end
      end
  end.

(** [abs_path.parent.mkdir(parents=True, exist_ok=True)] *)
Fixpoint mkdir_each (dirs : list string) : M unit :=
  match dirs with
  | [] => ret tt
  | dir :: rest =>
      d <- get disk ;;
      match d !! dir with
      | Some Directory => mkdir_each rest
      | Some (RegularFile _) => raise OSError
      | None => set_disk (<[dir := Directory]> d) ;;; mkdir_each rest
      end
  end.

Definition _add_file (abs_path : string) : M unit :=
  emit (Logged ("Adding new file " +:+ abs_path +:+ " to context")) ;;;
  f <- get files ;;
  set_files (<[abs_path := mkCodeFile abs_path]> f) ;;;
  mkdir_each (parents_of abs_path).

(** [abs_path.unlink()] *)
Definition unlink (abs_path : string) : M unit :=
  d <- get disk ;;
  match d !! abs_path with
  | Some (RegularFile _) => set_disk (delete abs_path d)
  | Some Directory => raise OSError
  | None => raise OSError
  end.

Definition _delete_file (abs_path : string) : M unit :=
  emit (Logged ("Deleting file " +:+ abs_path)) ;;;
  f <- get files ;;
  (match f !! abs_path with
   | Some _ => set_files (delete abs_path f)
   | None => ret tt
   end) ;;;
  unlink abs_path.

Definition _handle_delete (delete_change : CodeChange) : M unit :=
  let abs_path := git_root_join (file delete_change) in
  d <- get disk ;;
  match d !! abs_path with
  | None => emit (Logged ("Path " +:+ abs_path +:+ " non-existent on delete"))
  | Some _ =>
      emit (Printed ("Are you sure you want to delete " +:+ file delete_change +:+ "?")) ;;;
      yes <- ask_yes_no false ;;
      if yes then
        emit (Printed ("Deleting " +:+ file delete_change +:+ "...")) ;;;
        _delete_file abs_path
      else emit (Printed ("Not deleting " +:+ file delete_change))
  end.

(** Lines 187 to 191 of [_get_new_code_lines]. *)
Fixpoint apply_loop (min_changed_line : Q) (new_code_lines : list string)
  (changes : list CodeChange) : result (list string) :=
  match changes with
  | [] => Ok new_code_lines
  | change :: rest =>
      if Qle_bool min_changed_line (last_changed_line change)
      then Raise (overlap_error change)
      else apply_loop (first_changed_line change)
             (CodeChange_apply change new_code_lines) rest
  end.

(** Lines 180 to 192 of [_get_new_code_lines]. *)
Definition apply_changes (changes : list CodeChange) (new_code_lines : list string)
  : result (list string) :=
  match changes with
  | [] => Raise IndexError
  | first :: _ =>
      let largest_changed_line := Qceiling (last_changed_line first) in
      let new_code_lines := pad_tail new_code_lines largest_changed_line in
      let min_changed_line := inject_Z (largest_changed_line + 1) in
      apply_loop min_changed_line new_code_lines changes
  end.

(** Lines 157 to 164: sort, then the three resolution passes. *)
Definition resolve_conflicts (changes : list CodeChange) : M (list CodeChange) :=
  changes <- resolve_insertion_conflicts (sorted_reverse changes) ;;
  changes <- resolve_non_insertion_conflicts changes ;;
  resolve_insertion_conflicts changes.

(** Lines 168 to 178: the cached lines when the changes may go ahead,
    [None] when the file changed on disk and the user declines. *)
Definition staleness_check (rel_path : string) : M (option (list string)) :=
  cache <- get file_lines ;;
  match cache !! rel_path with
  | None => raise KeyError
  | Some new_code_lines =>
      fresh <- _read_file rel_path ;;
      if negb (same_lines new_code_lines fresh) then
        emit (Logged ("File '" +:+ rel_path +:+ "' changed while generating changes")) ;;;
        emit (Printed ("File '" +:+ rel_path
                       +:+ "' changed while generating; current file changes"
                       +:+ " will be erased. Continue?")) ;;;
        yes <- ask_yes_no false ;;
        if negb yes then
          emit (Printed ("Not applying changes to file " +:+ rel_path +:+ ".")) ;;;
          ret None
        else ret (Some new_code_lines)
      else ret (Some new_code_lines)
  end.

Definition lift {A} (r : result A) : M A :=
  match r with
  | Ok a => ret a
  | Raise e => raise e
  end.

Definition _get_new_code_lines (rel_path : string) (changes : list CodeChange)
  : M (option (list string)) :=
  match changes with
  | [] => ret (Some [])
  | _ :: _ =>
      if (1 <? size (list_to_set (file <$> changes) : gset string))%nat
      then raise (PlainException "All changes passed in must be for the same file")
      else
        changes <- resolve_conflicts changes ;;
        match changes with
        | [] => ret (Some [])
        | _ :: _ =>
            checked <- staleness_check rel_path ;;
            match checked with
            | None => ret None
            | Some new_code_lines =>
                new_code_lines <- lift (apply_changes changes new_code_lines) ;;
                ret (Some new_code_lines)
            end
        end
  end.

(** The body of the loop of lines 222 to 231 of [write_changes_to_files]:
    [None] and the empty list are both false. *)
Definition write_file_changes (rel_path : string) (changes : list CodeChange)
  : M unit :=
  let abs_path := git_root_join rel_path in
  new_code_lines <- _get_new_code_lines rel_path changes ;;
  match new_code_lines with
  | None | Some [] => ret tt
  | Some lines =>
      f <- get files ;;
      match f !! abs_path with
      | None => raise (MentatError ("Attempted to edit file " +:+ abs_path
                                    +:+ " not in context"))
      | Some _ => write_file abs_path lines
      end
  end.

(** The loop of lines 222 to 231 over the grouped changes, in the order
    of insertion into [file_changes]. *)
Fixpoint write_grouped_changes (file_changes : list (string * list CodeChange))
  : M unit :=
  match file_changes with
  | [] => ret tt
  | (rel_path, changes) :: rest =>
      write_file_changes rel_path changes ;;;
      write_grouped_changes rest
  end.

(** [file_changes]: a [defaultdict] of lists, in the order of insertion of
    its keys.  Reading a key that is not there puts it in with the empty
    list. *)
Fixpoint fc_lookup (rel_path : string) (file_changes : list (string * list CodeChange))
  : option (list CodeChange) :=
  match file_changes with
  | [] => None
  | (key, changes) :: rest =>
      if String.eqb key rel_path then Some changes else fc_lookup rel_path rest
  end.

Fixpoint fc_store (rel_path : string) (changes : list CodeChange)
  (file_changes : list (string * list CodeChange)) : list (string * list CodeChange) :=
  match file_changes with
  | [] => [(rel_path, changes)]
  | (key, old) :: rest =>
      if String.eqb key rel_path then (key, changes) :: rest
      else (key, old) :: fc_store rel_path changes rest
  end.

Definition fc_read (rel_path : string) (file_changes : list (string * list CodeChange))
  : list CodeChange * list (string * list CodeChange) :=
  match fc_lookup rel_path file_changes with
  | Some changes => (changes, file_changes)
  | None => ([], fc_store rel_path [] file_changes)
  end.

(** One iteration of the loop of lines 196 to 220 of
    [write_changes_to_files]. *)
Definition route_change (file_changes : list (string * list CodeChange))
  (code_change : CodeChange) : M (list (string * list CodeChange)) :=
  let rel_path := file code_change in
  let abs_path := git_root_join rel_path in
  match action code_change with
  | CreateFile =>
      emit (Printed ("Creating new file " +:+ rel_path)) ;;;
      _add_file abs_path ;;;
      write_file abs_path (code_lines code_change) ;;;
      ret file_changes
  | DeleteFile =>
      _handle_delete code_change ;;;
      ret file_changes
  | RenameFile =>
      let abs_new_path := git_root_join (name code_change) in
      _add_file abs_new_path ;;;
      cache <- get file_lines ;;
      match cache !! rel_path with
      | None => raise KeyError
      | Some lines =>
          write_file abs_new_path lines ;;;
          _delete_file abs_path ;;;
          let '(target, fc1) := fc_read (name code_change) file_changes in
          let '(source, fc2) := fc_read rel_path fc1 in
          let fc3 := fc_store (name code_change) (target ++ source) fc2 in
          let fc4 := fc_store rel_path [] fc3 in
          fresh <- _read_file (name code_change) ;;
          cache <- get file_lines ;;
          set_file_lines (<[name code_change := fresh]> cache) ;;;
          ret fc4
      end
  | Insert | Replace | Delete =>
      let '(queued, fc1) := fc_read rel_path file_changes in
      ret (fc_store rel_path (queued ++ [code_change]) fc1)
  end.

Fixpoint route_changes (file_changes : list (string * list CodeChange))
  (code_changes : list CodeChange) : M (list (string * list CodeChange)) :=
  match code_changes with
  | [] => ret file_changes
  | code_change :: rest =>
      file_changes <- route_change file_changes code_change ;;
      route_changes file_changes rest
  end.

Definition write_changes_to_files (code_changes : list CodeChange) : M unit :=
  file_changes <- route_changes [] code_changes ;;
  write_grouped_changes file_changes.

(** *** Notions used to state the properties of the file manager *)

(** The value of [min_changed_line] once the changes [applied] went
    through the loop: its initial value, then the [first_changed_line] of
    each applied change in turn. *)
Fixpoint min_changed_line_after (initial : Q) (applied : list CodeChange) : Q :=
  match applied with
  | [] => initial
  | change :: rest => min_changed_line_after (first_changed_line change) rest
  end.

(** One past the highest boundary: the initial [min_changed_line]. *)
Definition initial_min_changed_line (changes : list CodeChange) : Q :=
  match changes with
  | [] => 0
  | top :: _ => inject_Z (Qceiling (last_changed_line top) + 1)
  end.

(** Changes in descending order of position. *)
Definition descending (changes : list CodeChange) : Prop :=
  StronglySorted
    (fun a b => (last_changed_line b <= last_changed_line a)%Q) changes.

(** All the changes applied in order, none left out. *)
Definition apply_each (changes : list CodeChange) (lines : list string) : list string :=
  fold_left (fun buf change => CodeChange_apply change buf) changes lines.

(** The answer the user is about to give to a question whose default is no. *)
Definition confirms (w : World) : bool :=
  match fst (ask_yes_no false w) with
  | Ok b => b
  | Raise _ => false
  end.

(** A change that edits the lines of its file: neither a creation, nor a
    deletion, nor a renaming of the file. *)
Definition is_edit (change : CodeChange) : bool :=
  match action change with
  | Insert | Replace | Delete => true
  | CreateFile | DeleteFile | RenameFile => false
  end.

(** *** Further notions on the file manager *)

(** Each change ends below the first line of the change before it. *)
Fixpoint separated (changes : list CodeChange) : Prop :=
  match changes with
  | [] => True
  | above :: rest =>
      match rest with
      | [] => True
      | below :: _ =>
          (last_changed_line below < first_changed_line above)%Q /\ separated rest
      end
  end.

(** The changes queued for a file, none when the file has no entry. *)
Definition queued (rel_path : string) (file_changes : list (string * list CodeChange))
  : list CodeChange :=
  default [] (fc_lookup rel_path file_changes).

(** The changes of a batch that are for one file, in the order of the
    batch. *)
Definition changes_for (rel_path : string) (code_changes : list CodeChange)
  : list CodeChange :=
  List.filter (fun c => String.eqb (file c) rel_path) code_changes.

(** A line that holds a line feed. *)
Definition has_line_feed (line : string) : bool :=
  PyStr.contains (ascii_of_nat 10) line.

(** A line that holds a carriage return. *)
Definition has_carriage_return (line : string) : bool :=
  PyStr.contains (ascii_of_nat 13) line.

(** A line that holds neither of the two, so that writing it and reading
    it in text mode gives it back. *)
Definition plain_line (line : string) : Prop :=
  has_line_feed line = false /\ has_carriage_return line = false.

(** Lines 65 to 76 of [get_code_message]: the listing of one file, the
    path first, then the lines that the file is to show, each under its
    number counted from 1, then the empty string. *)
Fixpoint numbered_from (i : Z) (contains_line : Z -> bool) (lines : list string)
  : list string :=
  match lines with
  | [] => []
  | line :: rest =>
      (if contains_line i then [PyStr.tagged i line] else [])
      ++ numbered_from (i + 1) contains_line rest
  end.

Definition file_message_of (posix_rel_path : string) (lines : list string)
  (contains_line : Z -> bool) : list string :=
  posix_rel_path :: numbered_from 1 contains_line lines ++ [EmptyString].

(** Lines 86 to 97 of [get_code_message]: the token limit handed to the
    code map; a size or a limit that is [None] or 0 counts as not set. *)
Definition code_map_message_token_limit (context_size : option Z)
  (code_message_tokens : Z) (token_limit : option Z) : option Z :=
  match context_size with
  | Some size =>
      if size =? 0 then token_limit
      else
        let max_tokens_for_code_map := size - code_message_tokens in
        match token_limit with
        | Some limit =>
            if limit =? 0 then Some max_tokens_for_code_map
            else Some (Z.min limit max_tokens_for_code_map)
        | None => Some max_tokens_for_code_map
        end
  | None => token_limit
  end.

(** [list(s)]: the characters of a string, each a string of its own. *)
Fixpoint chars (s : string) : list string :=
  match s with
  | EmptyString => []
  | String c rest => String c EmptyString :: chars rest
  end.

(** Lines 113 and 122 of [get_code_message]: the list [code_message] is
    extended by the string made of a line feed and the code map, which adds
    its characters one by one, and the list is joined by line feeds. *)
Definition with_code_map (code_message : list string) (code_map_message : string)
  : string :=
  join_lines (code_message ++ chars (String (ascii_of_nat 10) code_map_message)).

(** A string with a line feed put before each of its characters. *)
Fixpoint spread (s : string) : string :=
  match s with
  | EmptyString => EmptyString
  | String c rest => String (ascii_of_nat 10) (String c (spread rest))
  end.

(** A three-line text whose lines end in CR LF, as an editor on another
    system leaves it. *)
Definition cr : string := String (ascii_of_nat 13) EmptyString.

Definition crlf_text : string :=
  "a" +:+ cr +:+ nl +:+ "b" +:+ cr +:+ nl +:+ "c".

(** Changes at which the theorems on the routing are instantiated. *)
Definition demo_edit (rel_path : string) (f l : Q) : CodeChange :=
  mkCodeChange rel_path Replace f l ["x"] "".

Definition demo_create : CodeChange :=
  mkCodeChange "b.py" CreateFile 0 0 ["one"; "two"] "".

Definition demo_rename : CodeChange :=
  mkCodeChange "a.py" RenameFile 0 0 [] "b.py".

(** Closes the cases in which a call leaves the world as it found it. *)
Ltac nothing_written :=
  cbn; repeat split; auto; try congruence;
  try (match goal with H : ?x <> ?x |- _ => now destruct H end).

(** *** Properties of the patch applicator *)

Lemma Qle_bool_false_iff (x y : Q) : Qle_bool x y = false <-> (y < x)%Q.
Proof.
  split.
  - intros H. apply Qnot_le_lt. intros Hle.
    apply Qle_bool_iff in Hle. congruence.
  - intros H. destruct (Qle_bool x y) eqn:E; [|reflexivity].
    apply Qle_bool_iff in E. exfalso. eapply Qlt_not_le; eassumption.
Qed.

Lemma top_passes_guard (q : Q) :
  Qle_bool (inject_Z (Qceiling q + 1)) q = false.
Proof.
  apply Qle_bool_false_iff.
  apply Qle_lt_trans with (inject_Z (Qceiling q)).
  - apply Qle_ceiling.
  - rewrite <- Zlt_Qlt. lia.
Qed.

Lemma apply_loop_guard pre :
  forall initial buf change post,
    (min_changed_line_after initial pre <= last_changed_line change)%Q ->
    exists culprit,
      apply_loop initial buf (pre ++ change :: post) = Raise (overlap_error culprit).
Proof.
  induction pre as [|p pre IH]; intros initial buf change post Hge; simpl in *.
  - exists change. apply Qle_bool_iff in Hge. now rewrite Hge.
  - destruct (Qle_bool initial (last_changed_line p)).
    + now exists p.
    + now apply IH.
Qed.

Lemma apply_loop_ok changes :
  forall initial buf out,
    apply_loop initial buf changes = Ok out ->
    out = apply_each changes buf
    /\ forall pre change post,
         changes = pre ++ change :: post ->
         (last_changed_line change < min_changed_line_after initial pre)%Q.
Proof.
  induction changes as [|c changes IH]; intros initial buf out H; simpl in *.
  - split; [congruence|]. intros [|? ?] ? ? E; discriminate E.
  - destruct (Qle_bool initial (last_changed_line c)) eqn:G; [discriminate|].
    destruct (IH _ _ _ H) as [Hout Hall]. split; [exact Hout|].
    intros [|p pre] change post E; simpl in *.
    + injection E as <- _. now apply Qle_bool_false_iff.
    + injection E as <- E. now apply (Hall pre change post).
Qed.

Lemma apply_changes_unfold top rest buf :
  apply_changes (top :: rest) buf
  = apply_loop (first_changed_line top)
      (CodeChange_apply top (pad_tail buf (Qceiling (last_changed_line top)))) rest.
Proof.
  unfold apply_changes. simpl. now rewrite top_passes_guard.
Qed.

Lemma pad_tail_grow (buf : list string) (top : Z) :
  top > Z.of_nat (length buf) + 1 ->
  pad_tail buf top
    = buf ++ repeat EmptyString (Z.to_nat (top - (Z.of_nat (length buf) + 1)))
  /\ Z.of_nat (length (pad_tail buf top)) = top - 1.
Proof.
  intros H. unfold pad_tail.
  destruct (Z.gtb_spec top (Z.of_nat (length buf) + 1)) as [_|Hle]; [|lia].
  split; [reflexivity|].
  rewrite length_app, repeat_length. lia.
Qed.

Lemma pad_tail_keep (buf : list string) (top : Z) :
  top <= Z.of_nat (length buf) + 1 -> pad_tail buf top = buf.
Proof.
  intros H. unfold pad_tail.
  destruct (Z.gtb_spec top (Z.of_nat (length buf) + 1)); [lia|reflexivity].
Qed.

Lemma descending_top top rest :
  descending (top :: rest) ->
  Forall (fun c => (last_changed_line c <= last_changed_line top)%Q) (top :: rest).
Proof.
  intros H. apply StronglySorted_inv in H as [_ H].
  constructor; [apply Qle_refl | exact H].
Qed.

(** *** Running the file manager *)

Lemma bind_ok {A B} (m : M A) (k : A -> M B) w a w' :
  m w = (Ok a, w') -> bind m k w = k a w'.
Proof. intros H. unfold bind. now rewrite H. Qed.

Lemma bind_raise {A B} (m : M A) (k : A -> M B) w e w' :
  m w = (Raise e, w') -> bind m k w = (Raise e, w').
Proof. intros H. unfold bind. now rewrite H. Qed.

Lemma same_lines_spec (a : list string) :
  forall b, same_lines a b = true <-> a = b.
Proof.
  induction a as [|x a IH]; intros [|y b]; simpl; split; try congruence.
  - intros H. apply andb_true_iff in H as [Hx Hab].
    apply String.eqb_eq in Hx. apply IH in Hab. congruence.
  - intros [= -> ->]. apply andb_true_iff. split.
    + apply String.eqb_refl.
    + now apply IH.
Qed.

Lemma _read_file_pure rel_path w :
  snd (_read_file rel_path w) = w.
Proof.
  unfold _read_file, bind, get. simpl.
  destruct (disk w !! git_root_join rel_path) as [[|]|]; reflexivity.
Qed.

Lemma confirms_emit e w :
  confirms (snd (emit e w)) = confirms w.
Proof. unfold confirms, ask_yes_no. simpl. destruct (answers w); reflexivity. Qed.

(** What the staleness check does when the file changed on disk and the
    user does not confirm. *)
Lemma staleness_check_declined rel_path w snapshot fresh :
  file_lines w !! rel_path = Some snapshot ->
  fst (_read_file rel_path w) = Ok fresh ->
  snapshot <> fresh ->
  confirms w = false ->
  exists w', staleness_check rel_path w = (Ok None, w')
             /\ disk w' = disk w /\ files w' = files w
             /\ file_lines w' = file_lines w.
Proof.
  intros Hcache Hread Hne Hno.
  unfold staleness_check.
  unfold bind at 1. unfold get at 1. simpl. rewrite Hcache.
  pose proof (_read_file_pure rel_path w) as Hpure.
  destruct (_read_file rel_path w) as [r w0] eqn:E. simpl in *. subst r w0.
  unfold bind at 1. rewrite E.
  assert (Hs : same_lines snapshot fresh = false).
  { destruct (same_lines snapshot fresh) eqn:S; [|reflexivity].
    apply same_lines_spec in S. contradiction. }
  rewrite Hs. simpl.
  unfold confirms, ask_yes_no in Hno.
  unfold bind, emit, ask_yes_no, ret. simpl.
  destruct (answers w) as [|[[|]|] rest]; simpl in *; try discriminate;
    eexists; (split; [reflexivity|]); simpl; auto.
Qed.

(** C1.  When a change reaches the loop with a [last_changed_line] that is
    not below [min_changed_line] (one past the highest boundary at first,
    then the [first_changed_line] of the change applied last),
    [_get_new_code_lines] raises the overlap error and returns no buffer;
    and whenever the loop does return a buffer, every change passed the
    guard and every one of them was applied, in order. *)
Theorem overlap_is_fatal (rel_path : string) (c0 : CodeChange) (cs : list CodeChange)
  (w w1 w2 : World) (pre : list CodeChange) (change : CodeChange)
  (post : list CodeChange) (buf : list string) :
  (size (list_to_set (file <$> c0 :: cs) : gset string) <= 1)%nat ->
  resolve_conflicts (c0 :: cs) w = (Ok (pre ++ change :: post), w1) ->
  staleness_check rel_path w1 = (Ok (Some buf), w2) ->
  (min_changed_line_after (initial_min_changed_line (pre ++ change :: post)) pre
   <= last_changed_line change)%Q ->
  (exists culprit,
     _get_new_code_lines rel_path (c0 :: cs) w = (Raise (overlap_error culprit), w2))
  /\ (forall out, apply_changes (pre ++ change :: post) buf <> Ok out)
  /\ (forall resolved lines out,
        apply_changes resolved lines = Ok out ->
        exists top rest,
          resolved = top :: rest
          /\ out = apply_each resolved (pad_tail lines (Qceiling (last_changed_line top)))
          /\ forall before c after,
               resolved = before ++ c :: after ->
               (last_changed_line c
                < min_changed_line_after (initial_min_changed_line resolved) before)%Q).
Proof.
  intros Hsame Hres Hstale Hguard.
  assert (Hfail : exists culprit,
             apply_changes (pre ++ change :: post) buf = Raise (overlap_error culprit)).
  { unfold apply_changes.
    destruct (pre ++ change :: post) as [|top rest] eqn:E.
    - destruct pre; discriminate E.
    - rewrite <- E. simpl in Hguard.
      now apply apply_loop_guard. }
  split; [|split].
  - destruct Hfail as [culprit Hfail]. exists culprit.
    unfold _get_new_code_lines.
    destruct (Nat.ltb_spec 1 (size (list_to_set (file <$> c0 :: cs) : gset string)))
      as [Hlt|_]; [lia|].
    rewrite (bind_ok _ _ _ _ _ Hres).
    destruct (pre ++ change :: post) as [|top rest] eqn:E.
    { destruct pre; discriminate E. }
    rewrite (bind_ok _ _ _ _ _ Hstale).
    rewrite Hfail. reflexivity.
  - intros out Hout. destruct Hfail as [culprit Hfail]. congruence.
  - intros resolved lines out Hout.
    destruct resolved as [|top rest]; [discriminate Hout|].
    exists top, rest. split; [reflexivity|].
    unfold apply_changes in Hout.
    apply apply_loop_ok in Hout as [Hout Hall].
    split; [exact Hout|]. exact Hall.
Qed.

(** The buffer that the staleness check hands on is the cached snapshot. *)
Lemma staleness_check_snapshot rel_path w1 w2 buf :
  staleness_check rel_path w1 = (Ok (Some buf), w2) ->
  file_lines w1 !! rel_path = Some buf.
Proof.
  unfold staleness_check. unfold bind at 1. unfold get at 1. cbn [fst snd].
  destruct (file_lines w1 !! rel_path) as [snapshot|]; [|discriminate].
  unfold bind at 1.
  destruct (_read_file rel_path w1) as [[fresh|e] w0]; [|discriminate].
  destruct (same_lines snapshot fresh); cbn [negb].
  - unfold ret. congruence.
  - unfold bind, emit, ask_yes_no, ret. cbn.
    destruct (answers w0) as [|[[|]|] more]; cbn; congruence.
Qed.

(** C7.  [_get_new_code_lines] pads the buffer before the first change is
    applied: with [largest] the ceiling of the highest [last_changed_line]
    and [L] the length of the snapshot that passed the staleness check, its
    outcome is that of the loop run on the padded snapshot, so what it
    returns is every change applied to the padded snapshot; when [largest]
    exceeds [L + 1] the padding is exactly [largest - (L + 1)] empty lines
    and brings the length to [largest - 1]; when the highest
    [last_changed_line] does not exceed [L + 1] nothing is appended. *)
Theorem tail_padding (rel_path : string) (c0 : CodeChange) (cs : list CodeChange)
  (w w1 w2 : World) (top : CodeChange) (rest : list CodeChange) (buf : list string) :
  (size (list_to_set (file <$> c0 :: cs) : gset string) <= 1)%nat ->
  resolve_conflicts (c0 :: cs) w = (Ok (top :: rest), w1) ->
  staleness_check rel_path w1 = (Ok (Some buf), w2) ->
  descending (top :: rest) ->
  let largest := Qceiling (last_changed_line top) in
  let L := Z.of_nat (length buf) in
  Forall (fun c => (last_changed_line c <= last_changed_line top)%Q) (top :: rest)
  /\ file_lines w1 !! rel_path = Some buf
  /\ _get_new_code_lines rel_path (c0 :: cs) w
     = (match apply_loop (first_changed_line top)
                (CodeChange_apply top (pad_tail buf largest)) rest with
        | Ok out => Ok (Some out)
        | Raise e => Raise e
        end, w2)
  /\ (forall out,
        fst (_get_new_code_lines rel_path (c0 :: cs) w) = Ok (Some out) ->
        out = apply_each (top :: rest) (pad_tail buf largest))
  /\ (largest > L + 1 ->
      pad_tail buf largest = buf ++ repeat EmptyString (Z.to_nat (largest - (L + 1)))
      /\ Z.of_nat (length (pad_tail buf largest)) = largest - 1)
  /\ ((last_changed_line top <= inject_Z (L + 1))%Q -> pad_tail buf largest = buf).
Proof.
  intros Hsame Hres Hstale Hsorted largest L.
  assert (Hrun : _get_new_code_lines rel_path (c0 :: cs) w
                 = (match apply_loop (first_changed_line top)
                            (CodeChange_apply top (pad_tail buf largest)) rest with
                    | Ok out => Ok (Some out)
                    | Raise e => Raise e
                    end, w2)).
  { unfold _get_new_code_lines.
    destruct (Nat.ltb_spec 1 (size (list_to_set (file <$> c0 :: cs) : gset string)))
      as [Hlt|_]; [lia|].
    rewrite (bind_ok _ _ _ _ _ Hres), (bind_ok _ _ _ _ _ Hstale).
    rewrite apply_changes_unfold. fold largest.
    destruct (apply_loop (first_changed_line top)
                (CodeChange_apply top (pad_tail buf largest)) rest); reflexivity. }
  split; [now apply descending_top|].
  split; [now apply (staleness_check_snapshot rel_path w1 w2)|].
  split; [exact Hrun|].
  split.
  - intros out. rewrite Hrun. cbn [fst].
    destruct (apply_loop (first_changed_line top)
                (CodeChange_apply top (pad_tail buf largest)) rest) as [res|e] eqn:E;
      [|discriminate].
    intros [= <-]. now apply apply_loop_ok in E as [-> _].
  - split; [apply pad_tail_grow|].
    intros Hle. apply pad_tail_keep.
    subst largest L.
    apply Qceiling_resp_le in Hle. now rewrite Qceiling_Z in Hle.
Qed.

(** A batch of edits of one file is routed to one group, in order, and
    nothing else happens on the way. *)
Lemma route_changes_edits (rel_path : string) (changes : list CodeChange) :
  forall queued w,
    Forall (fun c => file c = rel_path /\ is_edit c = true) changes ->
    route_changes [(rel_path, queued)] changes w
    = (Ok [(rel_path, queued ++ changes)], w).
Proof.
  induction changes as [|c changes IH]; intros queued w Hall; cbn [route_changes].
  - now rewrite app_nil_r.
  - apply Forall_cons_iff in Hall as [[Hfile Hedit] Hall].
    assert (Hstep : route_change [(rel_path, queued)] c w
                    = (Ok [(rel_path, queued ++ [c])], w)).
    { unfold route_change, is_edit in *. rewrite Hfile.
      destruct (action c); try discriminate;
        unfold fc_read; cbn [fc_lookup fc_store]; rewrite String.eqb_refl;
        cbn [fc_store]; rewrite String.eqb_refl; reflexivity. }
    rewrite (bind_ok _ _ _ _ _ Hstep), (IH _ _ Hall).
    now rewrite <- app_assoc.
Qed.

Lemma write_changes_to_files_edits (rel_path : string) (c0 : CodeChange)
  (cs : list CodeChange) (w : World) :
  Forall (fun c => file c = rel_path /\ is_edit c = true) (c0 :: cs) ->
  write_changes_to_files (c0 :: cs) w
  = bind (write_file_changes rel_path (c0 :: cs)) (fun _ => ret tt) w.
Proof.
  intros Hall. unfold write_changes_to_files. cbn [route_changes].
  apply Forall_cons_iff in Hall as [[Hfile Hedit] Hall].
  assert (Hstep : route_change [] c0 w = (Ok [(rel_path, [c0])], w)).
  { unfold route_change, is_edit in *. rewrite Hfile.
    destruct (action c0); try discriminate;
      unfold fc_read; cbn [fc_lookup fc_store]; rewrite String.eqb_refl; reflexivity. }
  unfold bind at 1. unfold bind at 1. rewrite Hstep.
  rewrite (route_changes_edits rel_path cs [c0] w Hall).
  reflexivity.
Qed.

(** C2.  When the lines read from disk differ from the cached snapshot at
    the time of the check and the user does not confirm,
    [_get_new_code_lines] returns [None] and the write loop leaves the
    file system, the tracked files and the cache as they were; so a write
    to the disk in that situation implies that the user confirmed.  The
    same holds of [write_changes_to_files] on a batch of edits of that
    file. *)
Theorem stale_file_needs_confirmation (rel_path : string) (c0 : CodeChange)
  (cs : list CodeChange) (w w1 : World) (top : CodeChange) (rest : list CodeChange)
  (snapshot fresh : list string) :
  (size (list_to_set (file <$> c0 :: cs) : gset string) <= 1)%nat ->
  resolve_conflicts (c0 :: cs) w = (Ok (top :: rest), w1) ->
  file_lines w1 !! rel_path = Some snapshot ->
  fst (_read_file rel_path w1) = Ok fresh ->
  snapshot <> fresh ->
  (confirms w1 = false ->
   exists w2,
     _get_new_code_lines rel_path (c0 :: cs) w = (Ok None, w2)
     /\ write_file_changes rel_path (c0 :: cs) w = (Ok tt, w2)
     /\ disk w2 = disk w1 /\ files w2 = files w1 /\ file_lines w2 = file_lines w1)
  /\ (disk (snd (write_file_changes rel_path (c0 :: cs) w)) <> disk w1 ->
      confirms w1 = true)
  /\ (Forall (fun c => file c = rel_path /\ is_edit c = true) (c0 :: cs) ->
      confirms w1 = false ->
      exists w2,
        write_changes_to_files (c0 :: cs) w = (Ok tt, w2)
        /\ disk w2 = disk w1 /\ files w2 = files w1 /\ file_lines w2 = file_lines w1).
Proof.
  intros Hsame Hres Hcache Hread Hne.
  assert (Hmain : confirms w1 = false ->
    exists w2,
     _get_new_code_lines rel_path (c0 :: cs) w = (Ok None, w2)
     /\ write_file_changes rel_path (c0 :: cs) w = (Ok tt, w2)
     /\ disk w2 = disk w1 /\ files w2 = files w1 /\ file_lines w2 = file_lines w1).
  { intros Hno.
    destruct (staleness_check_declined rel_path w1 snapshot fresh
                Hcache Hread Hne Hno) as (w2 & Hcheck & Hd & Hf & Hl).
    exists w2.
    assert (Hget : _get_new_code_lines rel_path (c0 :: cs) w = (Ok None, w2)).
    { unfold _get_new_code_lines.
      destruct (Nat.ltb_spec 1 (size (list_to_set (file <$> c0 :: cs) : gset string)))
        as [Hlt|_]; [lia|].
      rewrite (bind_ok _ _ _ _ _ Hres).
      rewrite (bind_ok _ _ _ _ _ Hcheck). reflexivity. }
    split; [exact Hget|]. split; [|auto].
    unfold write_file_changes. rewrite (bind_ok _ _ _ _ _ Hget). reflexivity. }
  split; [exact Hmain|]. split.
  - intros Hwritten. destruct (confirms w1) eqn:Hc; [reflexivity|].
    destruct (Hmain eq_refl) as (w2 & _ & Hw & Hd & _).
    rewrite Hw in Hwritten. simpl in Hwritten. contradiction.
  - intros Hedits Hno.
    destruct (Hmain Hno) as (w2 & _ & Hw & Hkept).
    exists w2. split; [|exact Hkept].
    rewrite (write_changes_to_files_edits rel_path c0 cs w Hedits).
    now rewrite (bind_ok _ _ _ _ _ Hw).
Qed.

(** C8.  [_handle_delete]: when the path does not exist it only logs the
    fact; when it exists and the user does not say yes, nothing but the
    dialogue changes; when it is a file and the user says yes, the file
    is removed from disk and from the tracked files; so the disk or the
    tracked files change only after a yes. *)
Theorem delete_needs_confirmation (delete_change : CodeChange) (w : World) :
  let abs_path := git_root_join (file delete_change) in
  let r := fst (_handle_delete delete_change w) in
  let w' := snd (_handle_delete delete_change w) in
  (disk w !! abs_path = None ->
   r = Ok tt /\ disk w' = disk w /\ files w' = files w
   /\ file_lines w' = file_lines w /\ answers w' = answers w
   /\ output w' = output w ++ [Logged ("Path " +:+ abs_path +:+ " non-existent on delete")])
  /\ (disk w !! abs_path <> None -> confirms w = false ->
      r = Ok tt /\ disk w' = disk w /\ files w' = files w
      /\ file_lines w' = file_lines w)
  /\ (forall text, disk w !! abs_path = Some (RegularFile text) -> confirms w = true ->
      r = Ok tt /\ disk w' = delete abs_path (disk w)
      /\ files w' = delete abs_path (files w) /\ file_lines w' = file_lines w)
  /\ (disk w' <> disk w \/ files w' <> files w ->
      confirms w = true /\ disk w !! abs_path <> None).
Proof.
  clear parents_of sorted_reverse resolve_insertion_conflicts
    resolve_non_insertion_conflicts CodeChange_apply.
  intros abs_path r w'. subst r w'.
  destruct w as [d f fl ans out].
  unfold confirms, _handle_delete, _delete_file, unlink, bind, get, emit,
    ask_yes_no, set_files, set_disk, ret, raise.
  cbn. fold abs_path.
  destruct (d !! abs_path) as [n|] eqn:Hn; cbn.
  - destruct ans as [|[[|]|] ans]; cbn.
    + repeat split; intros; try discriminate; intuition congruence.
    + destruct (f !! abs_path) eqn:Hf; cbn; rewrite Hn; destruct n; cbn.
      all: repeat split; intros; try discriminate; try congruence.
      all: try (symmetry; now apply delete_id).
      all: try (intuition congruence).
    + repeat split; intros; try discriminate; intuition congruence.
    + repeat split; intros; try discriminate; intuition congruence.
  - repeat split; intros; try discriminate; intuition congruence.
Qed.

(** *** Further properties of the patch applicator *)

Lemma apply_loop_cons (initial : Q) (buf : list string) (change : CodeChange)
  (rest : list CodeChange) :
  apply_loop initial buf (change :: rest)
  = if Qle_bool initial (last_changed_line change)
    then Raise (overlap_error change)
    else apply_loop (first_changed_line change) (CodeChange_apply change buf) rest.
Proof. reflexivity. Qed.

Lemma apply_loop_separated (rest : list CodeChange) :
  forall change initial buf,
    (last_changed_line change < initial)%Q ->
    separated (change :: rest) ->
    apply_loop initial buf (change :: rest) = Ok (apply_each (change :: rest) buf).
Proof.
  induction rest as [|below rest IH]; intros change initial buf Hlt Hsep;
    rewrite apply_loop_cons; apply Qle_bool_false_iff in Hlt; rewrite Hlt.
  - reflexivity.
  - destruct Hsep as [Hbelow Hsep].
    now rewrite (IH below _ _ Hbelow Hsep).
Qed.

Lemma apply_loop_ok_separated (rest : list CodeChange) :
  forall change initial buf out,
    apply_loop initial buf (change :: rest) = Ok out ->
    separated (change :: rest).
Proof.
  induction rest as [|below rest IH]; intros change initial buf out H;
    [exact I|].
  rewrite apply_loop_cons in H.
  destruct (Qle_bool initial (last_changed_line change)); [discriminate|].
  split.
  - rewrite apply_loop_cons in H.
    destruct (Qle_bool (first_changed_line change) (last_changed_line below)) eqn:G;
      [discriminate|]. now apply Qle_bool_false_iff.
  - eapply IH. exact H.
Qed.

Lemma apply_changes_separated (top : CodeChange) (rest : list CodeChange)
  (buf : list string) :
  separated (top :: rest) ->
  apply_changes (top :: rest) buf
  = Ok (apply_each (top :: rest) (pad_tail buf (Qceiling (last_changed_line top)))).
Proof.
  intros Hsep. unfold apply_changes. apply apply_loop_separated; [|exact Hsep].
  apply Qle_bool_false_iff. apply top_passes_guard.
Qed.

Lemma apply_loop_outcome (changes : list CodeChange) :
  forall initial buf e,
    apply_loop initial buf changes = Raise e ->
    exists culprit, In culprit changes /\ e = overlap_error culprit.
Proof.
  induction changes as [|c changes IH]; intros initial buf e H; cbn [apply_loop] in H;
    [discriminate|].
  destruct (Qle_bool initial (last_changed_line c)).
  - injection H as <-. exists c. split; [now left | reflexivity].
  - destruct (IH _ _ _ H) as (culprit & Hin & ->). exists culprit.
    split; [now right | reflexivity].
Qed.

(** X11.  The loop over the changes goes through exactly when each change ends
    below the first line of the change before it; the buffer it returns is
    then the padded buffer with every change applied in turn, and its only
    failure is the overlap error, raised for one of the changes. *)
Theorem apply_changes_iff_separated (top : CodeChange) (rest : list CodeChange)
  (buf : list string) :
  ((exists out, apply_changes (top :: rest) buf = Ok out) <-> separated (top :: rest))
  /\ (separated (top :: rest) ->
      apply_changes (top :: rest) buf
      = Ok (apply_each (top :: rest)
              (pad_tail buf (Qceiling (last_changed_line top)))))
  /\ (forall e, apply_changes (top :: rest) buf = Raise e ->
        exists culprit, In culprit (top :: rest) /\ e = overlap_error culprit).
Proof.
  split; [split|split].
  - intros [out H]. unfold apply_changes in H.
    eapply apply_loop_ok_separated. exact H.
  - intros Hsep. eexists. now apply apply_changes_separated.
  - apply apply_changes_separated.
  - intros e H. unfold apply_changes in H. eapply apply_loop_outcome. exact H.
Qed.

(** X12.  When the changes are separated, [_get_new_code_lines] returns the cached
    snapshot with the changes applied: at once and without a question when
    the file on disk still reads as the snapshot; after a yes when it does
    not, and then what is on disk plays no part in the result. *)
Theorem new_code_lines_from_snapshot (rel_path : string) (c0 : CodeChange)
  (cs : list CodeChange) (w w1 : World) (top : CodeChange) (rest : list CodeChange)
  (snapshot fresh : list string) :
  (size (list_to_set (file <$> c0 :: cs) : gset string) <= 1)%nat ->
  resolve_conflicts (c0 :: cs) w = (Ok (top :: rest), w1) ->
  file_lines w1 !! rel_path = Some snapshot ->
  fst (_read_file rel_path w1) = Ok fresh ->
  separated (top :: rest) ->
  let result :=
    Some (apply_each (top :: rest)
            (pad_tail snapshot (Qceiling (last_changed_line top)))) in
  (snapshot = fresh ->
   _get_new_code_lines rel_path (c0 :: cs) w = (Ok result, w1))
  /\ (snapshot <> fresh -> confirms w1 = true ->
      exists w2,
        _get_new_code_lines rel_path (c0 :: cs) w = (Ok result, w2)
        /\ disk w2 = disk w1 /\ files w2 = files w1
        /\ file_lines w2 = file_lines w1
        /\ answers w2 = tail (answers w1)).
Proof.
  intros Hsame Hres Hcache Hread Hsep result.
  pose proof (apply_changes_separated top rest snapshot Hsep) as Happly.
  pose proof (_read_file_pure rel_path w1) as Hpure.
  destruct (_read_file rel_path w1) as [r w0] eqn:E. cbn [fst snd] in *. subst r w0.
  assert (Hunfold : _get_new_code_lines rel_path (c0 :: cs) w
                    = bind (staleness_check rel_path)
                        (fun checked =>
                           match checked with
                           | None => ret None
                           | Some new_code_lines =>
                               bind (lift (apply_changes (top :: rest) new_code_lines))
                                 (fun l => ret (Some l))
                           end) w1).
  { unfold _get_new_code_lines.
    destruct (Nat.ltb_spec 1 (size (list_to_set (file <$> c0 :: cs) : gset string)))
      as [Hlt|_]; [lia|].
    now rewrite (bind_ok _ _ _ _ _ Hres). }
  rewrite Hunfold. split.
  - intros <-.
    assert (Hcheck : staleness_check rel_path w1 = (Ok (Some snapshot), w1)).
    { unfold staleness_check. unfold bind at 1. unfold get at 1. cbn [fst snd].
      rewrite Hcache. unfold bind at 1. rewrite E.
      rewrite (proj2 (same_lines_spec snapshot snapshot) eq_refl). reflexivity. }
    rewrite (bind_ok _ _ _ _ _ Hcheck), Happly. reflexivity.
  - intros Hne Hyes.
    assert (Hs : same_lines snapshot fresh = false).
    { destruct (same_lines snapshot fresh) eqn:S; [|reflexivity].
      apply same_lines_spec in S. contradiction. }
    assert (Hcheck : exists w2,
               staleness_check rel_path w1 = (Ok (Some snapshot), w2)
               /\ disk w2 = disk w1 /\ files w2 = files w1
               /\ file_lines w2 = file_lines w1
               /\ answers w2 = tail (answers w1)).
    { unfold staleness_check. unfold bind at 1. unfold get at 1. cbn [fst snd].
      rewrite Hcache. unfold bind at 1. rewrite E. rewrite Hs. cbn [negb].
      unfold confirms, ask_yes_no in Hyes.
      unfold bind, emit, ask_yes_no, ret. cbn.
      destruct (answers w1) as [|[[|]|] more]; cbn in *; try discriminate.
      eexists. split; [reflexivity|]. cbn. auto. }
    destruct Hcheck as (w2 & Hcheck & Hrest). exists w2. split; [|exact Hrest].
    rewrite (bind_ok _ _ _ _ _ Hcheck), Happly. reflexivity.
Qed.

(** X13.  Changes for two different files are refused at once: the exception is
    raised before anything is sorted, resolved, read or asked. *)
Theorem changes_of_two_files_refused (rel_path : string) (changes : list CodeChange)
  (c1 c2 : CodeChange) (w : World) :
  In c1 changes -> In c2 changes -> file c1 <> file c2 ->
  _get_new_code_lines rel_path changes w
  = (Raise (PlainException "All changes passed in must be for the same file"), w).
Proof.
  intros H1 H2 Hne.
  assert (Hsize : (2 <= size (list_to_set (file <$> changes) : gset string))%nat).
  { assert (Hsub : ({[file c1]} ∪ {[file c2]} : gset string)
                   ⊆ list_to_set (file <$> changes)).
    { intros f Hf. apply elem_of_list_to_set. apply list_elem_of_fmap.
      apply elem_of_union in Hf as [Hf|Hf]; apply elem_of_singleton in Hf; subst f.
      - exists c1. split; [reflexivity | now apply list_elem_of_In].
      - exists c2. split; [reflexivity | now apply list_elem_of_In]. }
    apply subseteq_size in Hsub. rewrite size_union in Hsub by set_solver.
    rewrite !size_singleton in Hsub. exact Hsub. }
  unfold _get_new_code_lines. destruct changes as [|c cs]; [contradiction|].
  destruct (Nat.ltb_spec 1 (size (list_to_set (file <$> c :: cs) : gset string)))
    as [_|Hle]; [reflexivity | lia].
Qed.

(** X14.  A file that the cache does not know makes [_get_new_code_lines] fail
    with [KeyError]; a file that is in the cache but no longer a file on
    disk makes it fail with the error of [open]: in both cases no question
    is asked and nothing changes. *)
Theorem vanished_file_is_an_error (rel_path : string) (c0 : CodeChange)
  (cs : list CodeChange) (w w1 : World) (top : CodeChange) (rest : list CodeChange) :
  (size (list_to_set (file <$> c0 :: cs) : gset string) <= 1)%nat ->
  resolve_conflicts (c0 :: cs) w = (Ok (top :: rest), w1) ->
  (file_lines w1 !! rel_path = None ->
   _get_new_code_lines rel_path (c0 :: cs) w = (Raise KeyError, w1))
  /\ (forall snapshot,
        file_lines w1 !! rel_path = Some snapshot ->
        (forall text, disk w1 !! git_root_join rel_path <> Some (RegularFile text)) ->
        _get_new_code_lines rel_path (c0 :: cs) w = (Raise OSError, w1)).
Proof.
  intros Hsame Hres.
  assert (Hunfold : forall r w2,
             staleness_check rel_path w1 = (Raise r, w2) ->
             _get_new_code_lines rel_path (c0 :: cs) w = (Raise r, w2)).
  { intros r w2 Hcheck. unfold _get_new_code_lines.
    destruct (Nat.ltb_spec 1 (size (list_to_set (file <$> c0 :: cs) : gset string)))
      as [Hlt|_]; [lia|].
    rewrite (bind_ok _ _ _ _ _ Hres). now rewrite (bind_raise _ _ _ _ _ Hcheck). }
  split.
  - intros Hcache. apply Hunfold. unfold staleness_check, bind, get. cbn [fst snd].
    now rewrite Hcache.
  - intros snapshot Hcache Hgone. apply Hunfold.
    unfold staleness_check, _read_file, bind, get, raise. cbn [fst snd].
    rewrite Hcache.
    destruct (disk w1 !! git_root_join rel_path) as [[text|]|] eqn:Hd;
      [now destruct (Hgone text) | reflexivity | reflexivity].
Qed.

(** *** Further properties of the write loop *)

(** X15.  One turn of the write loop touches one path at most: apart from what
    [_get_new_code_lines] itself does, the tracked files, the cache and
    every other path of the disk stay as they are, and the path of the file
    changes only if the file is tracked and the new lines are not empty, to
    hold these lines joined by line feeds. *)
Theorem write_touches_one_file (rel_path : string) (changes : list CodeChange)
  (w : World) :
  let abs_path := git_root_join rel_path in
  let w1 := snd (_get_new_code_lines rel_path changes w) in
  let w2 := snd (write_file_changes rel_path changes w) in
  files w2 = files w1 /\ file_lines w2 = file_lines w1
  /\ answers w2 = answers w1 /\ output w2 = output w1
  /\ (forall p, p <> abs_path -> disk w2 !! p = disk w1 !! p)
  /\ (disk w2 !! abs_path <> disk w1 !! abs_path ->
      is_Some (files w1 !! abs_path)
      /\ exists lines,
           lines <> []
           /\ fst (_get_new_code_lines rel_path changes w) = Ok (Some lines)
           /\ disk w2 !! abs_path = Some (RegularFile (join_lines lines))).
Proof.
  intros abs_path w1 w2. subst w1 w2.
  unfold write_file_changes, write_file, bind, get, raise, set_disk, ret.
  fold abs_path.
  destruct (_get_new_code_lines rel_path changes w) as [[[[|line lines]|]|e] w1];
    cbn [fst snd]; try solve [nothing_written].
  assert (Hwritten :
    let w2 := mkWorld (<[abs_path := RegularFile (join_lines (line :: lines))]> (disk w1))
                (files w1) (file_lines w1) (answers w1) (output w1) in
    files w2 = files w1 /\ file_lines w2 = file_lines w1
    /\ answers w2 = answers w1 /\ output w2 = output w1
    /\ (forall p, p <> abs_path -> disk w2 !! p = disk w1 !! p)
    /\ (disk w2 !! abs_path <> disk w1 !! abs_path ->
        is_Some (files w1 !! abs_path) ->
        is_Some (files w1 !! abs_path)
        /\ exists ls, ls <> [] /\ Ok (Some (line :: lines)) = Ok (Some ls)
                      /\ disk w2 !! abs_path = Some (RegularFile (join_lines ls)))).
  { cbn. repeat split; auto.
    - intros p Hp. now rewrite lookup_insert_ne.
    - exists (line :: lines). rewrite lookup_insert_eq. repeat split. discriminate. }
  cbn zeta in Hwritten.
  destruct Hwritten as (Hw1 & Hw2 & Hw3 & Hw4 & Hw5 & Hw6).
  destruct (files w1 !! abs_path) as [tracked|] eqn:Hf;
    [|solve [nothing_written]].
  destruct (disk w1 !! abs_path) as [[text|]|] eqn:Hd; cbn [fst snd].
  - repeat split; auto. all: apply Hw6; eauto.
  - solve [nothing_written].
  - destruct (last (parents_of abs_path)) as [parent|];
      [|repeat split; auto; apply Hw6; eauto].
    destruct (disk w1 !! parent) as [[t|]|]; cbn [fst snd].
    + solve [nothing_written].
    + repeat split; auto. all: apply Hw6; eauto.
    + solve [nothing_written].
Qed.

Lemma split_no_feed (line : string) :
  has_line_feed line = false -> split_lines line = [line].
Proof.
  unfold split_lines, has_line_feed.
  induction line as [|c r IH]; cbn [PyStr.split PyStr.contains]; [reflexivity|].
  intros H. apply orb_false_iff in H as [Hc Hr].
  rewrite Ascii.eqb_sym, Hc. now rewrite (IH Hr).
Qed.

Lemma split_feed (line rest : string) :
  has_line_feed line = false ->
  split_lines (line +:+ String (ascii_of_nat 10) rest) = line :: split_lines rest.
Proof.
  unfold split_lines, has_line_feed.
  induction line as [|c r IH]; intros H.
  - reflexivity.
  - cbn [PyStr.contains] in H. apply orb_false_iff in H as [Hc Hr].
    change (String c r +:+ String (ascii_of_nat 10) rest)
      with (String c (r +:+ String (ascii_of_nat 10) rest)).
    cbn [PyStr.split]. rewrite Ascii.eqb_sym, Hc. now rewrite (IH Hr).
Qed.

Lemma split_join_lines (lines : list string) :
  lines <> [] ->
  Forall (fun line => has_line_feed line = false) lines ->
  split_lines (join_lines lines) = lines.
Proof.
  induction lines as [|line rest IH]; [contradiction|].
  intros _ Hall. apply Forall_cons_iff in Hall as [Hline Hrest].
  unfold join_lines. cbn [String.concat].
  destruct rest as [|next rest]; [now apply split_no_feed|].
  change (split_lines (line +:+ String (ascii_of_nat 10) (join_lines (next :: rest)))
          = line :: next :: rest).
  rewrite split_feed by exact Hline.
  now rewrite IH.
Qed.

Lemma contains_append (c : ascii) (a b : string) :
  PyStr.contains c (a +:+ b) = PyStr.contains c a || PyStr.contains c b.
Proof.
  induction a as [|x a IH]; [reflexivity|].
  change (String x a +:+ b) with (String x (a +:+ b)).
  cbn [PyStr.contains]. now rewrite IH, orb_assoc.
Qed.

Lemma universal_newlines_plain (text : string) :
  has_carriage_return text = false -> universal_newlines text = text.
Proof.
  unfold has_carriage_return.
  induction text as [|c rest IH]; [reflexivity|].
  cbn [PyStr.contains universal_newlines]. intros H.
  apply orb_false_iff in H as [Hc Hrest].
  destruct (Nat.eqb_spec (PyStr.code c) 13) as [E|_].
  - exfalso. unfold PyStr.code in E.
    assert (Hc' : c = ascii_of_nat 13)
      by (rewrite <- E; symmetry; apply ascii_nat_embedding).
    subst c. discriminate Hc.
  - now rewrite (IH Hrest).
Qed.

Lemma join_lines_plain (lines : list string) :
  Forall plain_line lines -> has_carriage_return (join_lines lines) = false.
Proof.
  unfold has_carriage_return, join_lines.
  induction lines as [|line rest IH]; [reflexivity|].
  intros Hall. apply Forall_cons_iff in Hall as [[_ Hline] Hrest].
  unfold has_carriage_return in Hline.
  cbn [String.concat]. destruct rest as [|next rest]; [exact Hline|].
  change (PyStr.contains (ascii_of_nat 13)
            (line +:+ (String (ascii_of_nat 10) EmptyString
                       +:+ String.concat (String (ascii_of_nat 10) EmptyString)
                             (next :: rest))) = false).
  rewrite !contains_append, Hline, (IH Hrest). reflexivity.
Qed.

(** Lines without line feed and carriage return come back from the disk as
    they were written. *)
Lemma read_back_plain (lines : list string) :
  lines <> [] ->
  Forall plain_line lines ->
  split_lines (universal_newlines (join_lines lines)) = lines.
Proof.
  intros Hne Hall.
  rewrite (universal_newlines_plain _ (join_lines_plain lines Hall)).
  apply split_join_lines; [exact Hne|].
  eapply List.Forall_impl; [|exact Hall]. intros line Hl. apply Hl.
Qed.

(** X16.  What a later read returns after a successful turn of the write loop
    is the text that was written, read in text mode and split at line
    feeds; when the new lines are not empty and none of them holds a line
    feed or a carriage return, these are the lines that were written. *)
Theorem written_lines_read_back (rel_path : string) (changes : list CodeChange)
  (w : World) (lines : list string) :
  fst (_get_new_code_lines rel_path changes w) = Ok (Some lines) ->
  lines <> [] ->
  fst (write_file_changes rel_path changes w) = Ok tt ->
  fst (_read_file rel_path (snd (write_file_changes rel_path changes w)))
  = Ok (split_lines (universal_newlines (join_lines lines)))
  /\ (Forall plain_line lines ->
      fst (_read_file rel_path (snd (write_file_changes rel_path changes w)))
      = Ok lines).
Proof.
  intros Hget Hne Hwritten.
  assert (Hmain :
    fst (_read_file rel_path (snd (write_file_changes rel_path changes w)))
    = Ok (split_lines (universal_newlines (join_lines lines)))).
  { revert Hwritten.
    destruct (_get_new_code_lines rel_path changes w) as [r w1] eqn:Eget.
    cbn [fst] in Hget. subst r.
    unfold write_file_changes. rewrite (bind_ok _ _ _ _ _ Eget).
    destruct lines as [|line lines]; [contradiction|].
    assert (Hread : fst (_read_file rel_path
                      (mkWorld (<[git_root_join rel_path
                                   := RegularFile (join_lines (line :: lines))]> (disk w1))
                         (files w1) (file_lines w1) (answers w1) (output w1)))
                    = Ok (split_lines (universal_newlines (join_lines (line :: lines))))).
    { unfold _read_file, bind, get, ret. cbn [fst snd disk].
      rewrite lookup_insert_eq. reflexivity. }
    unfold bind, get, raise, write_file, set_disk, bind, get, raise. cbn [fst snd].
    destruct (files w1 !! git_root_join rel_path); [|discriminate].
    destruct (disk w1 !! git_root_join rel_path) as [[text|]|]; cbn [fst snd];
      [intros _; exact Hread | discriminate |].
    destruct (last (parents_of (git_root_join rel_path))) as [parent|];
      [|intros _; exact Hread].
    destruct (disk w1 !! parent) as [[t|]|]; cbn [fst snd];
      first [discriminate | intros _; exact Hread]. }
  split; [exact Hmain|].
  intros Hplain. rewrite Hmain. f_equal. now apply read_back_plain.
Qed.

(** X17.  [_delete_file] untracks before it unlinks: when the path is not a file
    on disk the call fails, the disk is as it was, and the path is no
    longer tracked all the same. *)
Theorem failed_delete_still_untracks (abs_path : string) (w : World) :
  (forall text, disk w !! abs_path <> Some (RegularFile text)) ->
  fst (_delete_file abs_path w) = Raise OSError
  /\ disk (snd (_delete_file abs_path w)) = disk w
  /\ files (snd (_delete_file abs_path w)) = delete abs_path (files w).
Proof.
  intros Hgone.
  unfold _delete_file, unlink, bind, get, emit, set_files, set_disk, ret, raise.
  cbn [fst snd files disk].
  destruct (files w !! abs_path) eqn:Hf; cbn [fst snd files disk];
    (destruct (disk w !! abs_path) as [[text|]|] eqn:Hd;
     [now destruct (Hgone text)| |]); cbn [fst snd files disk];
    repeat split; try reflexivity; symmetry; now apply delete_id.
Qed.

(** *** Further properties of the routing of changes *)

Lemma fc_lookup_store_eq (rel_path : string) (changes : list CodeChange)
  (file_changes : list (string * list CodeChange)) :
  fc_lookup rel_path (fc_store rel_path changes file_changes) = Some changes.
Proof.
  induction file_changes as [|[key old] rest IH]; cbn [fc_store fc_lookup].
  - now rewrite String.eqb_refl.
  - destruct (String.eqb key rel_path) eqn:E; cbn [fc_lookup]; rewrite E; auto.
Qed.

Lemma fc_lookup_store_ne (rel_path other : string) (changes : list CodeChange)
  (file_changes : list (string * list CodeChange)) :
  rel_path <> other ->
  fc_lookup other (fc_store rel_path changes file_changes)
  = fc_lookup other file_changes.
Proof.
  intros Hne.
  assert (Hno : String.eqb rel_path other = false) by now apply String.eqb_neq.
  induction file_changes as [|[key old] rest IH]; cbn [fc_store fc_lookup].
  - now rewrite Hno.
  - destruct (String.eqb key rel_path) eqn:E; cbn [fc_lookup].
    + apply String.eqb_eq in E. subst key. now rewrite Hno.
    + now rewrite IH.
Qed.

Lemma fc_read_queued (rel_path : string)
  (file_changes : list (string * list CodeChange)) :
  fst (fc_read rel_path file_changes) = queued rel_path file_changes
  /\ forall other,
       fc_lookup other (snd (fc_read rel_path file_changes))
       = if String.eqb rel_path other
         then Some (queued rel_path file_changes)
         else fc_lookup other file_changes.
Proof.
  unfold fc_read, queued.
  destruct (fc_lookup rel_path file_changes) as [q|] eqn:E; cbn [fst snd default].
  - split; [reflexivity|]. intros other.
    destruct (String.eqb rel_path other) eqn:Eo; [|reflexivity].
    apply String.eqb_eq in Eo. now subst other.
  - split; [reflexivity|]. intros other.
    destruct (String.eqb rel_path other) eqn:Eo.
    + apply String.eqb_eq in Eo. subst other. apply fc_lookup_store_eq.
    + apply fc_lookup_store_ne. now apply String.eqb_neq.
Qed.

Lemma route_edit (file_changes : list (string * list CodeChange))
  (change : CodeChange) (w : World) :
  is_edit change = true ->
  exists file_changes',
    route_change file_changes change w = (Ok file_changes', w)
    /\ forall rel_path,
         fc_lookup rel_path file_changes'
         = if String.eqb (file change) rel_path
           then Some (queued rel_path file_changes ++ [change])
           else fc_lookup rel_path file_changes.
Proof.
  intros Hedit.
  pose proof (fc_read_queued (file change) file_changes) as [Hq Hrest].
  destruct (fc_read (file change) file_changes) as [q fc1] eqn:E.
  cbn [fst snd] in Hq, Hrest. subst q.
  exists (fc_store (file change) (queued (file change) file_changes ++ [change]) fc1).
  split.
  - unfold route_change, is_edit in *. rewrite E.
    destruct (action change); try discriminate; reflexivity.
  - intros rel_path. destruct (String.eqb (file change) rel_path) eqn:Eo.
    + apply String.eqb_eq in Eo. subst rel_path. apply fc_lookup_store_eq.
    + rewrite fc_lookup_store_ne by now apply String.eqb_neq.
      now rewrite Hrest, Eo.
Qed.

Lemma route_edits (code_changes : list CodeChange) :
  forall file_changes w,
    Forall (fun c => is_edit c = true) code_changes ->
    exists file_changes',
      route_changes file_changes code_changes w = (Ok file_changes', w)
      /\ forall rel_path,
           fc_lookup rel_path file_changes'
           = match fc_lookup rel_path file_changes, changes_for rel_path code_changes with
             | None, [] => None
             | before, more => Some (default [] before ++ more)
             end.
Proof.
  induction code_changes as [|c rest IH]; intros file_changes w Hall;
    cbn [route_changes].
  - exists file_changes. split; [reflexivity|]. intros rel_path.
    unfold changes_for. cbn [List.filter].
    destruct (fc_lookup rel_path file_changes); cbn [default];
      [now rewrite app_nil_r | reflexivity].
  - apply Forall_cons_iff in Hall as [Hc Hall].
    destruct (route_edit file_changes c w Hc) as (fc1 & Hstep & Hfc1).
    destruct (IH fc1 w Hall) as (fc2 & Hrest & Hfc2).
    exists fc2. split; [now rewrite (bind_ok _ _ _ _ _ Hstep)|].
    intros rel_path. rewrite Hfc2, Hfc1. unfold changes_for, queued.
    cbn [List.filter].
    destruct (String.eqb (file c) rel_path) eqn:Eo; [|reflexivity].
    cbn [default].
    destruct (fc_lookup rel_path file_changes) as [q|]; cbn [default app];
      destruct (List.filter (fun c0 => String.eqb (file c0) rel_path) rest);
      cbn; rewrite ?app_nil_r, <- ?app_assoc; reflexivity.
Qed.

(** X18.  A batch of edits is grouped by file and nothing else happens on the
    way: each file of the batch gets the edits that are for it, in the order
    of the batch, and a file without an edit gets no group. *)
Theorem edits_are_grouped_by_file (code_changes : list CodeChange) (w : World) :
  Forall (fun c => is_edit c = true) code_changes ->
  exists file_changes,
    route_changes [] code_changes w = (Ok file_changes, w)
    /\ forall rel_path,
         fc_lookup rel_path file_changes
         = match changes_for rel_path code_changes with
           | [] => None
           | group => Some group
           end.
Proof.
  intros Hall. destruct (route_edits code_changes [] w Hall) as (fc & Hroute & Hfc).
  exists fc. split; [exact Hroute|]. intros rel_path. rewrite Hfc.
  cbn [fc_lookup default app]. reflexivity.
Qed.

Lemma mkdir_each_ok (dirs : list string) :
  forall w,
    Forall (fun dir => forall text, disk w !! dir <> Some (RegularFile text)) dirs ->
    exists d,
      mkdir_each dirs w
      = (Ok tt, mkWorld d (files w) (file_lines w) (answers w) (output w))
      /\ (forall p, In p dirs -> d !! p = Some Directory)
      /\ (forall p, ~ In p dirs -> d !! p = disk w !! p).
Proof.
  induction dirs as [|dir rest IH]; intros [d f fl an out] Hall; cbn [mkdir_each].
  - exists d. split; [reflexivity|]. split; [contradiction | reflexivity].
  - apply Forall_cons_iff in Hall as [Hdir Hrest]. cbn [disk] in *.
    unfold bind at 1. unfold get at 1. cbn [fst snd disk].
    destruct (d !! dir) as [[text|]|] eqn:Hd.
    + now destruct (Hdir text).
    + destruct (IH (mkWorld d f fl an out) Hrest) as (d' & Hrun & Hin & Hout).
      exists d'. split; [exact Hrun|]. cbn [disk] in *. split.
      * intros p [<-|Hp]; [|now apply Hin].
        destruct (in_dec string_dec dir rest) as [Hi|Hi]; [now apply Hin|].
        now rewrite Hout.
      * intros p Hp. apply Hout. intros Hi. apply Hp. now right.
    + unfold bind, set_disk. cbn [fst snd disk files file_lines answers output].
      destruct (IH (mkWorld (<[dir := Directory]> d) f fl an out))
        as (d' & Hrun & Hin & Hout).
      { cbn [disk]. eapply List.Forall_impl; [|exact Hrest].
        intros other Hother text. cbv beta in Hother.
        destruct (string_dec dir other) as [<-|Hne].
        - rewrite lookup_insert_eq. discriminate.
        - rewrite lookup_insert_ne by exact Hne. apply Hother. }
      exists d'. split; [exact Hrun|]. cbn [disk] in *. split.
      * intros p [<-|Hp]; [|now apply Hin].
        destruct (in_dec string_dec dir rest) as [Hi|Hi]; [now apply Hin|].
        rewrite Hout by exact Hi. apply lookup_insert_eq.
      * intros p Hp. rewrite Hout by (intros Hi; apply Hp; now right).
        apply lookup_insert_ne. intros ->. apply Hp. now left.
Qed.

Lemma _add_file_ok (abs_path : string) (w : World) :
  Forall (fun dir => forall text, disk w !! dir <> Some (RegularFile text))
    (parents_of abs_path) ->
  exists d,
    _add_file abs_path w
    = (Ok tt,
       mkWorld d (<[abs_path := mkCodeFile abs_path]> (files w)) (file_lines w)
         (answers w)
         (output w ++ [Logged ("Adding new file " +:+ abs_path +:+ " to context")]))
    /\ (forall p, In p (parents_of abs_path) -> d !! p = Some Directory)
    /\ (forall p, ~ In p (parents_of abs_path) -> d !! p = disk w !! p).
Proof.
  intros Hall. destruct w as [d f fl an out]. cbn [disk files file_lines answers output] in *.
  destruct (mkdir_each_ok (parents_of abs_path)
              (mkWorld d (<[abs_path := mkCodeFile abs_path]> f) fl an
                 (out ++ [Logged ("Adding new file " +:+ abs_path +:+ " to context")]))
              Hall) as (d' & Hrun & Hin & Hout).
  exists d'. split; [|split; assumption].
  unfold _add_file, bind, emit, get, set_files. cbn [fst snd disk files file_lines answers output].
  exact Hrun.
Qed.

Lemma write_file_ok (abs_path : string) (lines : list string) (w : World) :
  disk w !! abs_path <> Some Directory ->
  (forall parent, last (parents_of abs_path) = Some parent ->
                  disk w !! parent = Some Directory) ->
  write_file abs_path lines w
  = (Ok tt,
     mkWorld (<[abs_path := RegularFile (join_lines lines)]> (disk w))
       (files w) (file_lines w) (answers w) (output w)).
Proof.
  intros Hnodir Hparent.
  unfold write_file, bind, get, set_disk, raise. cbn [fst snd].
  destruct (disk w !! abs_path) as [[text|]|]; [reflexivity | contradiction |].
  destruct (last (parents_of abs_path)) as [parent|]; [|reflexivity].
  now rewrite (Hparent parent eq_refl).
Qed.

Lemma _delete_file_ok (abs_path text : string) (w : World) :
  disk w !! abs_path = Some (RegularFile text) ->
  _delete_file abs_path w
  = (Ok tt,
     mkWorld (delete abs_path (disk w)) (delete abs_path (files w)) (file_lines w)
       (answers w) (output w ++ [Logged ("Deleting file " +:+ abs_path)])).
Proof.
  intros Hd.
  unfold _delete_file, unlink, bind, emit, get, set_files, set_disk, ret.
  cbn [fst snd disk files file_lines answers output].
  destruct (files w !! abs_path) eqn:Hf;
    cbn [fst snd disk files file_lines answers output]; rewrite Hd; [reflexivity|].
  now rewrite (delete_id (files w) abs_path Hf).
Qed.

(** X19.  A create-file change registers the path, makes the directories above
    it, and writes its lines there; a file that is already at the path is
    overwritten, and no question is asked. *)
Theorem create_file_writes (file_changes : list (string * list CodeChange))
  (change : CodeChange) (w : World) :
  let abs_path := git_root_join (file change) in
  action change = CreateFile ->
  Forall (fun dir => forall text, disk w !! dir <> Some (RegularFile text))
    (parents_of abs_path) ->
  ~ In abs_path (parents_of abs_path) ->
  disk w !! abs_path <> Some Directory ->
  exists w',
    route_change file_changes change w = (Ok file_changes, w')
    /\ disk w' !! abs_path = Some (RegularFile (join_lines (code_lines change)))
    /\ files w' = <[abs_path := mkCodeFile abs_path]> (files w)
    /\ (forall p, In p (parents_of abs_path) -> disk w' !! p = Some Directory)
    /\ (forall p, p <> abs_path -> ~ In p (parents_of abs_path) ->
                  disk w' !! p = disk w !! p)
    /\ answers w' = answers w /\ file_lines w' = file_lines w.
Proof.
  intros abs_path Haction Hparents Hself Hnodir.
  unfold route_change. rewrite Haction. fold abs_path.
  set (w0 := snd (emit (Printed ("Creating new file " +:+ file change)) w)).
  assert (Hemit : emit (Printed ("Creating new file " +:+ file change)) w = (Ok tt, w0))
    by reflexivity.
  rewrite (bind_ok _ _ _ _ _ Hemit).
  destruct (_add_file_ok abs_path w0 Hparents) as (d & Hadd & Hin & Hout).
  rewrite (bind_ok _ _ _ _ _ Hadd).
  match type of Hadd with _ = (_, ?w1) =>
    assert (Hwrite := write_file_ok abs_path (code_lines change) w1) end.
  cbn [disk files file_lines answers output] in Hwrite.
  rewrite (bind_ok _ _ _ _ _ (Hwrite
             ltac:(rewrite (Hout _ Hself); exact Hnodir)
             ltac:(intros parent Hlast; apply Hin;
                   apply list_elem_of_In; now apply last_Some_elem_of))).
  eexists. split; [reflexivity|]. cbn [disk files file_lines answers output].
  split; [apply lookup_insert_eq|]. split; [reflexivity|]. split.
  - intros p Hp. rewrite lookup_insert_ne by (intros <-; contradiction). now apply Hin.
  - split; [|split; reflexivity].
    intros p Hne Hp. rewrite lookup_insert_ne by congruence. now apply Hout.
Qed.

(** X20.  A rename-file change copies the cached lines of the file to the new
    path, removes the old file, tracks the new path in place of the old one,
    and moves the changes queued for the old path after those queued for
    the new one; the lines come from the cache, not from the old file, and
    no question is asked. *)
Theorem rename_file_moves (file_changes : list (string * list CodeChange))
  (change : CodeChange) (w : World) (lines : list string) (text : string) :
  let abs_path := git_root_join (file change) in
  let abs_new_path := git_root_join (name change) in
  action change = RenameFile ->
  file_lines w !! file change = Some lines ->
  disk w !! abs_path = Some (RegularFile text) ->
  abs_path <> abs_new_path ->
  Forall (fun dir => forall text, disk w !! dir <> Some (RegularFile text))
    (parents_of abs_new_path) ->
  ~ In abs_new_path (parents_of abs_new_path) ->
  disk w !! abs_new_path <> Some Directory ->
  exists file_changes' w',
    route_change file_changes change w = (Ok file_changes', w')
    /\ disk w' !! abs_new_path = Some (RegularFile (join_lines lines))
    /\ disk w' !! abs_path = None
    /\ files w' = delete abs_path (<[abs_new_path := mkCodeFile abs_new_path]> (files w))
    /\ file_lines w'
       = <[name change := split_lines (universal_newlines (join_lines lines))]>
           (file_lines w)
    /\ (lines <> [] -> Forall plain_line lines ->
        file_lines w' = <[name change := lines]> (file_lines w))
    /\ answers w' = answers w
    /\ fc_lookup (name change) file_changes'
       = Some (queued (name change) file_changes ++ queued (file change) file_changes)
    /\ fc_lookup (file change) file_changes' = Some [].
Proof.
  intros abs_path abs_new_path Haction Hcache Hold Hdiff Hparents Hself Hnodir.
  assert (Hnames : name change <> file change).
  { intros E. apply Hdiff. unfold abs_path, abs_new_path. now rewrite E. }
  assert (Hold_out : ~ In abs_path (parents_of abs_new_path)).
  { intros Hi. apply (proj1 (List.Forall_forall _ _) Hparents _ Hi text). exact Hold. }
  unfold route_change. rewrite Haction. fold abs_path abs_new_path.
  destruct (_add_file_ok abs_new_path w Hparents) as (d & Hadd & Hin & Hout).
  rewrite (bind_ok _ _ _ _ _ Hadd).
  unfold bind at 1. unfold get at 1. cbn [fst snd file_lines]. rewrite Hcache.
  match type of Hadd with _ = (_, ?w1) =>
    assert (Hwrite := write_file_ok abs_new_path lines w1) end.
  cbn [disk files file_lines answers output] in Hwrite.
  rewrite (bind_ok _ _ _ _ _ (Hwrite
             ltac:(rewrite (Hout _ Hself); exact Hnodir)
             ltac:(intros parent Hlast; apply Hin;
                   apply list_elem_of_In; now apply last_Some_elem_of))).
  match goal with |- context [bind (_delete_file abs_path) _ ?w2] =>
    assert (Hdelete := _delete_file_ok abs_path text w2) end.
  cbn [disk files file_lines answers output] in Hdelete.
  rewrite (bind_ok _ _ _ _ _ (Hdelete
             ltac:(rewrite lookup_insert_ne by congruence;
                   rewrite (Hout _ Hold_out); exact Hold))).
  pose proof (fc_read_queued (name change) file_changes) as [Ht Hfc1].
  destruct (fc_read (name change) file_changes) as [target fc1].
  cbn [fst snd] in Ht, Hfc1. subst target.
  pose proof (fc_read_queued (file change) fc1) as [Hs Hfc2].
  destruct (fc_read (file change) fc1) as [source fc2].
  cbn [fst snd] in Hs, Hfc2. subst source.
  assert (Hsource : queued (file change) fc1 = queued (file change) file_changes).
  { unfold queued. rewrite Hfc1.
    now rewrite (proj2 (String.eqb_neq _ _) Hnames). }
  unfold _read_file, bind, get, ret, set_file_lines.
  cbn [fst snd disk files file_lines answers output]. fold abs_new_path.
  rewrite lookup_delete_ne by congruence. rewrite lookup_insert_eq.
  cbn [fst snd disk files file_lines answers output].
  eexists _, _. split; [reflexivity|].
  cbn [disk files file_lines answers output].
  split; [rewrite lookup_delete_ne by congruence; apply lookup_insert_eq|].
  split; [apply lookup_delete_eq|].
  split; [reflexivity|]. split; [reflexivity|].
  split; [intros Hne Hplain; now rewrite (read_back_plain lines Hne Hplain)|].
  split; [reflexivity|].
  split.
  - rewrite fc_lookup_store_ne by congruence.
    rewrite fc_lookup_store_eq. now rewrite Hsource.
  - apply fc_lookup_store_eq.
Qed.

(** *** Properties of the parts of [get_code_message] *)

Lemma numbered_from_entries (contains_line : Z -> bool) (lines : list string) :
  forall i entry,
    In entry (numbered_from i contains_line lines)
    <-> exists k line,
          nth_error lines k = Some line
          /\ contains_line (i + Z.of_nat k) = true
          /\ entry = PyStr.tagged (i + Z.of_nat k) line.
Proof.
  induction lines as [|first rest IH]; intros i entry; cbn [numbered_from].
  - split; [contradiction|]. intros (k & line & H & _). destruct k; discriminate H.
  - rewrite in_app_iff, IH. split.
    + intros [Hin|(k & line & Hk & Hc & ->)].
      * destruct (contains_line i) eqn:Hc; [|contradiction].
        destruct Hin as [<-|[]]. exists 0%nat, first.
        rewrite Z.add_0_r. auto.
      * exists (S k), line. replace (i + Z.of_nat (S k)) with (i + 1 + Z.of_nat k) by lia.
        auto.
    + intros (k & line & Hk & Hc & ->). destruct k as [|k].
      * left. injection Hk as ->. rewrite Z.add_0_r in *. rewrite Hc. now left.
      * right. exists k, line.
        replace (i + 1 + Z.of_nat k) with (i + Z.of_nat (S k)) by lia. auto.
Qed.

Lemma numbered_from_whole (lines : list string) :
  forall i k line,
    nth_error lines k = Some line ->
    nth_error (numbered_from i (fun _ => true) lines) k
    = Some (PyStr.tagged (i + Z.of_nat k) line)
    /\ length (numbered_from i (fun _ => true) lines) = length lines.
Proof.
  induction lines as [|first rest IH]; intros i k line Hk; [destruct k; discriminate Hk|].
  cbn [numbered_from app length]. destruct k as [|k]; cbn [nth_error] in *.
  - injection Hk as ->. rewrite Z.add_0_r. split; [reflexivity|]. f_equal.
    clear. revert i. induction rest as [|x rest IH]; intros i; [reflexivity|].
    cbn [numbered_from app length]. f_equal. apply IH.
  - destruct (IH (i + 1) k line Hk) as [Hnth Hlen]. split.
    + rewrite Hnth. do 2 f_equal. lia.
    + now rewrite Hlen.
Qed.

(** X21.  The listing of a file begins with its path and ends with the empty
    string; between them it holds, in order, the lines that the file is to
    show, each under its number counted from 1.  For a file shown whole,
    entry [k] of the listing is line [k] of the file: the position in the
    listing is the line number. *)
Theorem file_message_numbers_lines (posix_rel_path : string) (lines : list string)
  (contains_line : Z -> bool) :
  hd_error (file_message_of posix_rel_path lines contains_line) = Some posix_rel_path
  /\ last (file_message_of posix_rel_path lines contains_line) = Some EmptyString
  /\ (forall entry,
        In entry (numbered_from 1 contains_line lines)
        <-> exists k line,
              nth_error lines k = Some line
              /\ contains_line (Z.of_nat k + 1) = true
              /\ entry = PyStr.tagged (Z.of_nat k + 1) line)
  /\ (forall k line,
        nth_error lines k = Some line ->
        nth_error (file_message_of posix_rel_path lines (fun _ => true)) (S k)
        = Some (PyStr.tagged (Z.of_nat k + 1) line)).
Proof.
  unfold file_message_of. split; [reflexivity|]. split.
  - change (posix_rel_path :: numbered_from 1 contains_line lines ++ [EmptyString])
      with ((posix_rel_path :: numbered_from 1 contains_line lines) ++ [EmptyString]).
    apply last_snoc.
  - split.
    + intros entry. rewrite numbered_from_entries.
      split; intros (k & line & Hk & Hc & ->); exists k, line;
        rewrite (Z.add_comm _ 1) in *; auto.
    + intros k line Hk. cbn [nth_error].
      destruct (numbered_from_whole lines 1 k line Hk) as [Hnth Hlen].
      rewrite nth_error_app1.
      * rewrite Hnth. do 2 f_equal. lia.
      * rewrite Hlen. apply nth_error_Some. congruence.
Qed.

(** X22.  When the size of the context is known, the token limit handed to the
    code map is never above what the code message leaves of the context,
    nor above the limit of the code map when one is set; a limit of 0
    counts as no limit. *)
Theorem code_map_limit_within_context (size tokens : Z) (token_limit : option Z) :
  size <> 0 ->
  exists limit,
    code_map_message_token_limit (Some size) tokens token_limit = Some limit
    /\ limit <= size - tokens
    /\ (forall own, token_limit = Some own -> own <> 0 -> limit <= own)
    /\ (token_limit = None \/ token_limit = Some 0 -> limit = size - tokens).
Proof.
  intros Hsize. unfold code_map_message_token_limit.
  destruct (Z.eqb_spec size 0) as [?|_]; [contradiction|].
  destruct token_limit as [own|].
  - destruct (Z.eqb_spec own 0) as [->|Hown].
    + eexists. split; [reflexivity|]. split; [lia|]. split.
      * intros ? [= <-] H. contradiction.
      * reflexivity.
    + eexists. split; [reflexivity|]. split; [lia|]. split.
      * intros ? [= <-] _. lia.
      * intros [H|[= H]]; [discriminate | contradiction].
  - eexists. split; [reflexivity|]. split; [lia|]. split.
    + intros ? H. discriminate H.
    + reflexivity.
Qed.

Lemma append_assoc (a b c : string) : (a +:+ b) +:+ c = a +:+ (b +:+ c).
Proof.
  induction a as [|x a IH]; [reflexivity|].
  change (String x ((a +:+ b) +:+ c) = String x (a +:+ (b +:+ c))). now rewrite IH.
Qed.

Lemma join_lines_app (xs ys : list string) :
  xs <> [] -> ys <> [] ->
  join_lines (xs ++ ys)
  = join_lines xs +:+ String (ascii_of_nat 10) EmptyString +:+ join_lines ys.
Proof.
  intros Hx Hy. induction xs as [|x xs IH]; [contradiction|].
  destruct xs as [|x' xs].
  - destruct ys as [|y ys]; [contradiction|]. reflexivity.
  - change (join_lines ((x :: x' :: xs) ++ ys))
      with (x +:+ String (ascii_of_nat 10) EmptyString +:+ join_lines ((x' :: xs) ++ ys)).
    rewrite IH by discriminate.
    change (join_lines (x :: x' :: xs))
      with (x +:+ String (ascii_of_nat 10) EmptyString +:+ join_lines (x' :: xs)).
    now rewrite !append_assoc.
Qed.

Lemma join_lines_chars (c : ascii) (rest : string) :
  join_lines (chars (String c rest)) = String c (spread rest).
Proof.
  revert c. induction rest as [|c' rest IH]; intros c; [reflexivity|].
  change (join_lines (chars (String c (String c' rest))))
    with (String c EmptyString +:+ String (ascii_of_nat 10) EmptyString
          +:+ join_lines (chars (String c' rest))).
  now rewrite IH.
Qed.

(** X23.  The code map is added to the message character by character: in the
    text that [get_code_message] returns, the code message is followed by
    two line feeds and then by the code map with a line feed before each of
    its characters. *)
Theorem code_map_is_spread (code_message : list string) (code_map_message : string) :
  code_message <> [] ->
  with_code_map code_message code_map_message
  = join_lines code_message
    +:+ String (ascii_of_nat 10) (String (ascii_of_nat 10) (spread code_map_message)).
Proof.
  intros Hne. unfold with_code_map.
  rewrite join_lines_app by (try exact Hne; discriminate).
  rewrite join_lines_chars. reflexivity.
Qed.

End CodeFileManager.

(** *** The file manager theorems at concrete inputs *)

Lemma tail_padding_witness :
  _get_new_code_lines demo_root (fun cs => cs) demo_resolve demo_resolve demo_apply
    "a.py" [demo_change 6 6; demo_change 1 2]
    (demo_world ["a"; "b"; "c"] (join_lines ["a"; "b"; "c"]) [])
  = (Ok (Some ["x"; "c"; ""; ""; "x"]),
     demo_world ["a"; "b"; "c"] (join_lines ["a"; "b"; "c"]) [])
  /\ pad_tail ["a"; "b"; "c"] 6 = ["a"; "b"; "c"; ""; ""]
  /\ pad_tail ["a"; "b"; "c"; "d"; "e"] 6 = ["a"; "b"; "c"; "d"; "e"].
Proof.
  assert (Hd : descending [demo_change 6 6; demo_change 1 2]).
  { repeat constructor; unfold Qle; simpl; lia. }
  split; [|split].
  - destruct (tail_padding demo_root (fun cs => cs) demo_resolve demo_resolve demo_apply
                "a.py" (demo_change 6 6) [demo_change 1 2]
                (demo_world ["a"; "b"; "c"] (join_lines ["a"; "b"; "c"]) [])
                (demo_world ["a"; "b"; "c"] (join_lines ["a"; "b"; "c"]) [])
                (demo_world ["a"; "b"; "c"] (join_lines ["a"; "b"; "c"]) [])
                (demo_change 6 6) [demo_change 1 2] ["a"; "b"; "c"])
      as (_ & _ & Hrun & _).
    + vm_compute. lia.
    + reflexivity.
    + vm_compute. reflexivity.
    + exact Hd.
    + rewrite Hrun. vm_compute. reflexivity.
  - destruct (tail_padding demo_root (fun cs => cs) demo_resolve demo_resolve demo_apply
                "a.py" (demo_change 6 6) [demo_change 1 2]
                (demo_world ["a"; "b"; "c"] (join_lines ["a"; "b"; "c"]) [])
                (demo_world ["a"; "b"; "c"] (join_lines ["a"; "b"; "c"]) [])
                (demo_world ["a"; "b"; "c"] (join_lines ["a"; "b"; "c"]) [])
                (demo_change 6 6) [demo_change 1 2] ["a"; "b"; "c"])
      as (_ & _ & _ & _ & Hgrow & _).
    + vm_compute. lia.
    + reflexivity.
    + vm_compute. reflexivity.
    + exact Hd.
    + apply Hgrow. vm_compute. reflexivity.
  - destruct (tail_padding demo_root (fun cs => cs) demo_resolve demo_resolve demo_apply
                "a.py" (demo_change 6 6) [demo_change 1 2]
                (demo_world ["a"; "b"; "c"; "d"; "e"] (join_lines ["a"; "b"; "c"; "d"; "e"]) [])
                (demo_world ["a"; "b"; "c"; "d"; "e"] (join_lines ["a"; "b"; "c"; "d"; "e"]) [])
                (demo_world ["a"; "b"; "c"; "d"; "e"] (join_lines ["a"; "b"; "c"; "d"; "e"]) [])
                (demo_change 6 6) [demo_change 1 2] ["a"; "b"; "c"; "d"; "e"])
      as (_ & _ & _ & _ & _ & Hkeep).
    + vm_compute. lia.
    + reflexivity.
    + vm_compute. reflexivity.
    + exact Hd.
    + apply Hkeep. vm_compute. discriminate.
Defined.

Lemma overlap_is_fatal_witness :
  exists culprit,
    _get_new_code_lines demo_root (fun cs => cs) demo_resolve demo_resolve demo_apply
      "a.py" [demo_change 2 3; demo_change 1 2]
      (demo_world ["a"; "b"; "c"] (join_lines ["a"; "b"; "c"]) [])
    = (Raise (overlap_error culprit),
       demo_world ["a"; "b"; "c"] (join_lines ["a"; "b"; "c"]) []).
Proof.
  refine (proj1 (overlap_is_fatal demo_root (fun cs => cs) demo_resolve demo_resolve
                   demo_apply "a.py" (demo_change 2 3) [demo_change 1 2]
                   (demo_world ["a"; "b"; "c"] (join_lines ["a"; "b"; "c"]) [])
                   (demo_world ["a"; "b"; "c"] (join_lines ["a"; "b"; "c"]) [])
                   (demo_world ["a"; "b"; "c"] (join_lines ["a"; "b"; "c"]) [])
                   [demo_change 2 3] (demo_change 1 2) [] ["a"; "b"; "c"] _ _ _ _)).
  - vm_compute. lia.
  - reflexivity.
  - vm_compute. reflexivity.
  - unfold Qle. simpl. lia.
Defined.

Lemma stale_file_needs_confirmation_witness :
  exists w2,
    write_changes_to_files demo_root demo_parents (fun cs => cs) demo_resolve
      demo_resolve demo_apply [demo_change 3 3; demo_change 1 1]
      (demo_world ["a"; "b"; "c"] (join_lines ["a"; "b"; "c"; "d"]) [None])
    = (Ok tt, w2)
    /\ disk w2
       = disk (demo_world ["a"; "b"; "c"] (join_lines ["a"; "b"; "c"; "d"]) [None]).
Proof.
  destruct (stale_file_needs_confirmation demo_root demo_parents (fun cs => cs)
              demo_resolve demo_resolve demo_apply "a.py" (demo_change 3 3)
              [demo_change 1 1]
              (demo_world ["a"; "b"; "c"] (join_lines ["a"; "b"; "c"; "d"]) [None])
              (demo_world ["a"; "b"; "c"] (join_lines ["a"; "b"; "c"; "d"]) [None])
              (demo_change 3 3) [demo_change 1 1]
              ["a"; "b"; "c"] ["a"; "b"; "c"; "d"]) as (_ & _ & Hbatch).
  - vm_compute. lia.
  - reflexivity.
  - reflexivity.
  - vm_compute. reflexivity.
  - discriminate.
  - destruct Hbatch as (w2 & Hwrite & Hdisk & _).
    + repeat constructor.
    + reflexivity.
    + exists w2. split; [exact Hwrite | exact Hdisk].
Defined.

Lemma delete_needs_confirmation_witness :
  let change := mkCodeChange "a.py" DeleteFile 0 0 [] "" in
  disk (snd (_handle_delete demo_root change (demo_world ["a"] "a" [Some true])))
  = delete "/r/a.py" (disk (demo_world ["a"] "a" [Some true]))
  /\ disk (snd (_handle_delete demo_root change (demo_world ["a"] "a" [None])))
     = disk (demo_world ["a"] "a" [None]).
Proof.
  intros change. split.
  - destruct (delete_needs_confirmation demo_root change
                (demo_world ["a"] "a" [Some true])) as (_ & _ & Hyes & _).
    destruct (Hyes "a") as (_ & Hdisk & _); [reflexivity | reflexivity | exact Hdisk].
  - destruct (delete_needs_confirmation demo_root change
                (demo_world ["a"] "a" [None])) as (_ & Hno & _).
    destruct Hno as (_ & Hdisk & _); [vm_compute; discriminate | reflexivity | exact Hdisk].
Defined.

(** *** The further file manager theorems at concrete inputs *)

Lemma apply_changes_iff_separated_witness :
  apply_changes demo_apply [demo_change 3 3; demo_change 1 1] ["a"; "b"; "c"]
  = Ok ["x"; "b"; "x"].
Proof.
  apply (proj1 (proj2 (apply_changes_iff_separated demo_apply (demo_change 3 3)
                         [demo_change 1 1] ["a"; "b"; "c"]))).
  split; [|exact I]. unfold Qlt. simpl. lia.
Defined.

(** Reading in text mode: CR LF and CR come out as line feeds. *)
Example read_file_in_text_mode :
  fst (_read_file demo_root "a.py"
         (demo_world [] ("a" +:+ cr +:+ nl +:+ "b" +:+ cr +:+ "c" +:+ nl +:+ cr
                         +:+ "d" +:+ cr) []))
  = Ok ["a"; "b"; "c"; ""; "d"; ""].
Proof. vm_compute. reflexivity. Qed.

(** Lines that hold a carriage return are not read back as written. *)
Example carriage_return_is_not_read_back :
  split_lines (universal_newlines (join_lines ["x" +:+ cr; "b"])) = ["x"; "b"].
Proof. vm_compute. reflexivity. Qed.

Lemma new_code_lines_from_snapshot_witness :
  _get_new_code_lines demo_root (fun cs => cs) demo_resolve demo_resolve demo_apply
    "a.py" [demo_change 3 3; demo_change 1 1]
    (demo_world ["a"; "b"; "c"] crlf_text [])
  = (Ok (Some ["x"; "b"; "x"]), demo_world ["a"; "b"; "c"] crlf_text []).
Proof.
  apply (proj1 (new_code_lines_from_snapshot demo_root (fun cs => cs) demo_resolve
                  demo_resolve demo_apply "a.py" (demo_change 3 3) [demo_change 1 1]
                  (demo_world ["a"; "b"; "c"] crlf_text [])
                  (demo_world ["a"; "b"; "c"] crlf_text [])
                  (demo_change 3 3) [demo_change 1 1] ["a"; "b"; "c"] ["a"; "b"; "c"]
                  ltac:(vm_compute; lia) eq_refl eq_refl ltac:(vm_compute; reflexivity)
                  ltac:(split; [unfold Qlt; simpl; lia | exact I]))).
  reflexivity.
Defined.

Lemma changes_of_two_files_refused_witness :
  _get_new_code_lines demo_root (fun cs => cs) demo_resolve demo_resolve demo_apply
    "a.py" [demo_edit "a.py" 1 1; demo_edit "b.py" 1 1]
    (demo_world ["a"] "a" [])
  = (Raise (PlainException "All changes passed in must be for the same file"),
     demo_world ["a"] "a" []).
Proof.
  apply (changes_of_two_files_refused demo_root (fun cs => cs) demo_resolve
           demo_resolve demo_apply "a.py" [demo_edit "a.py" 1 1; demo_edit "b.py" 1 1]
           (demo_edit "a.py" 1 1) (demo_edit "b.py" 1 1)).
  - left. reflexivity.
  - right. left. reflexivity.
  - discriminate.
Defined.

Lemma vanished_file_is_an_error_witness :
  _get_new_code_lines demo_root (fun cs => cs) demo_resolve demo_resolve demo_apply
    "b.py" [demo_edit "b.py" 1 1] (demo_world ["a"] "a" [])
  = (Raise KeyError, demo_world ["a"] "a" []).
Proof.
  apply (proj1 (vanished_file_is_an_error demo_root (fun cs => cs) demo_resolve
                  demo_resolve demo_apply "b.py" (demo_edit "b.py" 1 1) []
                  (demo_world ["a"] "a" []) (demo_world ["a"] "a" [])
                  (demo_edit "b.py" 1 1) [] ltac:(vm_compute; lia) eq_refl)).
  reflexivity.
Defined.

Lemma write_touches_one_file_witness :
  disk (snd (write_file_changes demo_root demo_parents (fun cs => cs) demo_resolve
               demo_resolve demo_apply "a.py" [demo_change 1 1]
               (demo_world ["a"] "a" []))) !! "/r"
  = Some Directory.
Proof.
  destruct (write_touches_one_file demo_root demo_parents (fun cs => cs) demo_resolve
              demo_resolve demo_apply "a.py" [demo_change 1 1]
              (demo_world ["a"] "a" [])) as (_ & _ & _ & _ & Hother & _).
  rewrite (Hother "/r"); [reflexivity | discriminate].
Defined.

Lemma written_lines_read_back_witness :
  fst (_read_file demo_root "a.py"
         (snd (write_file_changes demo_root demo_parents (fun cs => cs) demo_resolve
                 demo_resolve demo_apply "a.py" [demo_change 1 1]
                 (demo_world ["a"; "b"] (join_lines ["a"; "b"]) []))))
  = Ok ["x"; "b"].
Proof.
  destruct (written_lines_read_back demo_root demo_parents (fun cs => cs) demo_resolve
              demo_resolve demo_apply "a.py" [demo_change 1 1]
              (demo_world ["a"; "b"] (join_lines ["a"; "b"]) []) ["x"; "b"])
    as [_ Hplain].
  - vm_compute. reflexivity.
  - discriminate.
  - vm_compute. reflexivity.
  - apply Hplain. repeat constructor.
Defined.

Lemma failed_delete_still_untracks_witness :
  fst (_delete_file "/r" (demo_world ["a"] "a" [])) = Raise OSError.
Proof.
  apply (failed_delete_still_untracks "/r" (demo_world ["a"] "a" [])).
  intros text. vm_compute. discriminate.
Defined.

Lemma edits_are_grouped_by_file_witness :
  exists file_changes,
    route_changes demo_root demo_parents []
      [demo_edit "a.py" 3 3; demo_edit "b.py" 2 2; demo_edit "a.py" 1 1]
      (demo_world ["a"] "a" [])
    = (Ok file_changes, demo_world ["a"] "a" [])
    /\ fc_lookup "a.py" file_changes
       = Some [demo_edit "a.py" 3 3; demo_edit "a.py" 1 1].
Proof.
  destruct (edits_are_grouped_by_file demo_root demo_parents
              [demo_edit "a.py" 3 3; demo_edit "b.py" 2 2; demo_edit "a.py" 1 1]
              (demo_world ["a"] "a" []))
    as (file_changes & Hroute & Hgroups).
  - repeat constructor.
  - exists file_changes. split; [exact Hroute|]. now rewrite Hgroups.
Defined.

Lemma create_file_writes_witness :
  exists w',
    route_change demo_root demo_parents [] demo_create (demo_world ["a"] "a" [])
    = (Ok [], w')
    /\ disk w' !! "/r/b.py" = Some (RegularFile (join_lines ["one"; "two"])).
Proof.
  destruct (create_file_writes demo_root demo_parents [] demo_create
              (demo_world ["a"] "a" [])) as (w' & Hroute & Hdisk & _).
  - reflexivity.
  - repeat constructor. intros text. vm_compute. discriminate.
  - intros [H|[]]. discriminate H.
  - vm_compute. discriminate.
  - exists w'. split; [exact Hroute | exact Hdisk].
Defined.

Lemma rename_file_moves_witness :
  exists file_changes' w',
    route_change demo_root demo_parents [("a.py", [demo_change 1 1])] demo_rename
      (demo_world ["a"; "b"] "changed on disk" [])
    = (Ok file_changes', w')
    /\ disk w' !! "/r/b.py" = Some (RegularFile (join_lines ["a"; "b"]))
    /\ disk w' !! "/r/a.py" = None
    /\ fc_lookup "b.py" file_changes' = Some [demo_change 1 1].
Proof.
  destruct (rename_file_moves demo_root demo_parents [("a.py", [demo_change 1 1])]
              demo_rename (demo_world ["a"; "b"] "changed on disk" [])
              ["a"; "b"] "changed on disk")
    as (fc & w' & Hroute & Hnew & Hold & _ & _ & _ & _ & Hmoved & _).
  - reflexivity.
  - reflexivity.
  - reflexivity.
  - discriminate.
  - repeat constructor. intros text. vm_compute. discriminate.
  - intros [H|[]]. discriminate H.
  - vm_compute. discriminate.
  - exists fc, w'. repeat split; assumption.
Defined.

Lemma file_message_numbers_lines_witness :
  nth_error (file_message_of "a.py" ["def f():"; "    return 1"] (fun _ => true)) 2
  = Some "2:    return 1".
Proof.
  apply (proj2 (proj2 (proj2 (file_message_numbers_lines "a.py"
                                ["def f():"; "    return 1"] (fun _ => true))))
           1%nat "    return 1").
  reflexivity.
Defined.

Lemma code_map_limit_within_context_witness :
  exists limit,
    code_map_message_token_limit (Some 8192) 6000 (Some 0) = Some limit
    /\ limit <= 2192.
Proof.
  destruct (code_map_limit_within_context 8192 6000 (Some 0)) as (limit & Hl & Hle & _).
  - discriminate.
  - exists limit. split; [exact Hl | exact Hle].
Defined.

Lemma code_map_is_spread_witness :
  with_code_map ["Code Files:"; "a.py"] "ab"
  = join_lines ["Code Files:"; "a.py"; ""; ""; "a"; "b"].
Proof.
  rewrite (code_map_is_spread ["Code Files:"; "a.py"] "ab"); [reflexivity | discriminate].
Defined.

(** ** The string methods on small inputs *)

Example splitlines_demo :
  PyStr.splitlines ("a" +:+ nl +:+ nl +:+ "b" +:+ String (ascii_of_nat 13) nl +:+ "c" +:+ nl)
  = ["a"; ""; "b"; "c"].
Proof. reflexivity. Qed.

Example split_demo :
  PyStr.split " " "@@ -1,3 +1,3 @@" = ["@@"; "-1,3"; "+1,3"; "@@"]
  /\ PyStr.split "," "" = [""].
Proof. split; reflexivity. Qed.

Example int_demo :
  PyStr.int " +1_0 " = Some 10 /\ PyStr.int "-3" = Some (-3)
  /\ PyStr.int "1__0" = None /\ PyStr.int "" = None /\ PyStr.int "+ 1" = None.
Proof. repeat split; reflexivity. Qed.

(** [int] takes the white space of ASCII, NEL and NBSP off both ends, not
    the separators FS to US, and refuses more than 4300 digits. *)
Example int_separators :
  PyStr.int (String "4" (String (ascii_of_nat 31) EmptyString)) = None
  /\ PyStr.int (String (ascii_of_nat 28) "4") = None
  /\ PyStr.int (String (ascii_of_nat 160) (String "4" (String (ascii_of_nat 133) EmptyString)))
     = Some 4
  /\ new_start_of ("@@ -1 +4" +:+ String (ascii_of_nat 31) " @@") = Raise ValueError.
Proof. repeat split; vm_compute; reflexivity. Qed.

Example int_digit_limit :
  PyStr.int (string_of_list_ascii (repeat "1"%char 4300)) <> None
  /\ PyStr.int (string_of_list_ascii (repeat "1"%char 4301)) = None
  /\ PyStr.int (string_of_list_ascii (repeat "0"%char 4301)) = None.
Proof.
  split; [|split; vm_compute; reflexivity].
  destruct (PyStr.int (string_of_list_ascii (repeat "1"%char 4300))) eqn:E;
    [discriminate|].
  vm_compute in E. discriminate E.
Qed.

Example slice_demo :
  PyStr.slice ["a"; "b"; "c"] 1 9 = ["b"; "c"]
  /\ PyStr.slice ["a"; "b"; "c"] (-2) 3 = ["b"; "c"]
  /\ PyStr.slice_from ["a"; "b"; "c"] (-1) = ["c"].
Proof. repeat split; reflexivity. Qed.

Example new_start_of_demo :
  new_start_of "@@ -14 +14 @@ def divide_numbers(a, b):" = Ok 14
  /\ new_start_of "@@ -2 +1,0 @@" = Ok 1
  /\ new_start_of "@@ -1" = Raise IndexError
  /\ new_start_of "@@ -1 +x @@" = Raise ValueError.
Proof. repeat split; vm_compute; reflexivity. Qed.

(** ** Properties of the diff parser *)

Lemma startswith_cons (line : string) (p : ascii) (q : string) :
  PyStr.startswith line (String p q) = true ->
  exists r, line = String p r /\ PyStr.startswith r q = true.
Proof.
  unfold PyStr.startswith. destruct line as [|c r]; simpl; [discriminate|].
  destruct (ascii_dec p c) as [->|]; [|discriminate].
  intros H. now exists r.
Qed.

Lemma startswith_head (c : ascii) (r : string) (p : ascii) (q : string) :
  c <> p -> PyStr.startswith (String c r) (String p q) = false.
Proof.
  intros Hne. unfold PyStr.startswith. simpl.
  destruct (ascii_dec p c); [congruence|reflexivity].
Qed.

(** What the first character of a line decides. *)
Lemma content_line_head (line : string) :
  is_content_line line = true ->
  is_ignored_prefix line = false /\ is_hunk_header line = false
  /\ PyStr.startswith line "//" = false /\ PyStr.startswith line " " = false
  /\ PyStr.startswith line "\" = false.
Proof.
  unfold is_content_line, is_ignored_prefix, is_hunk_header, is_change_line.
  intros H.
  apply andb_true_iff in H as [H H3]. apply andb_true_iff in H as [H H2].
  apply negb_true_iff in H2, H3. rewrite H2, H3. simpl.
  apply orb_true_iff in H as [H|H]; apply startswith_cons in H as (r & -> & _);
    repeat split; now apply startswith_head.
Qed.

Lemma hunk_header_head (line : string) :
  is_hunk_header line = true ->
  is_ignored_prefix line = false /\ is_content_line line = false.
Proof.
  unfold is_content_line, is_ignored_prefix, is_hunk_header, is_change_line.
  intros H. apply startswith_cons in H as (r & -> & _).
  rewrite !startswith_head by discriminate. now split.
Qed.

Lemma ignored_prefix_head (line : string) :
  is_ignored_prefix line = true ->
  is_hunk_header line = false /\ is_content_line line = false.
Proof.
  unfold is_content_line, is_ignored_prefix, is_hunk_header, is_change_line.
  intros H.
  destruct (PyStr.startswith line "---") eqn:H1.
  { apply startswith_cons in H1 as (r & -> & _).
    rewrite startswith_head by discriminate. split; [reflexivity|].
    now rewrite andb_false_r. }
  destruct (PyStr.startswith line "+++") eqn:H2.
  { apply startswith_cons in H2 as (r & -> & _).
    rewrite startswith_head by discriminate. split; [reflexivity|].
    now rewrite andb_false_r. }
  simpl in H. apply startswith_cons in H as (r & -> & _).
  rewrite !startswith_head by discriminate. now split.
Qed.

(** The three ways an iteration of the parser can go. *)
Lemma parse_line_cases (st : parse_state) (line : string) :
  (is_hunk_header line = false /\ is_content_line line = false
   /\ parse_line st line = Ok st)
  \/ (is_hunk_header line = true /\ is_content_line line = false
      /\ parse_line st line
         = rbind (new_start_of line) (fun n => Ok (flush st, Some (mkDiffAnnotation n []))))
  \/ (is_hunk_header line = false /\ is_content_line line = true
      /\ parse_line st line
         = match snd st with
           | None => Raise (UserError "Invalid diff")
           | Some a => Ok (fst st, Some (mkDiffAnnotation (start a) (message a ++ [line])))
           end).
Proof.
  unfold parse_line.
  destruct (is_ignored_prefix line) eqn:Hi.
  { left. apply ignored_prefix_head in Hi as [? ?]. auto. }
  destruct (is_hunk_header line) eqn:Hh.
  { right; left. apply hunk_header_head in Hh as [? ?]. auto. }
  destruct (is_change_line line) eqn:Hc.
  - right; right. split; [reflexivity|]. split; [|reflexivity].
    unfold is_content_line. rewrite Hc. simpl.
    unfold is_ignored_prefix in Hi.
    apply orb_false_iff in Hi as [Hi _]. apply orb_false_iff in Hi as [-> ->].
    reflexivity.
  - left. split; [reflexivity|]. split; [|reflexivity].
    unfold is_content_line. now rewrite Hc.
Qed.

Lemma new_start_of_outcome (line : string) :
  (exists n, new_start_of line = Ok n)
  \/ new_start_of line = Raise IndexError
  \/ new_start_of line = Raise ValueError.
Proof.
  unfold new_start_of.
  destruct (nth_error (PyStr.split " " line) 2); [|auto].
  destruct (PyStr.int _); eauto.
Qed.

Lemma premature_content_reflect (lines : list string) :
  premature_contentb lines = true <-> premature_content lines.
Proof.
  induction lines as [|line rest IH]; simpl.
  - split; [discriminate|]. intros (pre & l & post & E & _). destruct pre; discriminate E.
  - destruct (is_hunk_header line) eqn:Hh.
    + split; [discriminate|]. intros (pre & l & post & E & Hl & Hpre).
      destruct pre as [|p pre]; simpl in E; injection E as <- _.
      * apply content_line_head in Hl as (_ & Hl & _). congruence.
      * apply Forall_inv in Hpre. congruence.
    + rewrite orb_true_iff, IH. split.
      * intros [Hl|(pre & l & post & -> & Hl & Hpre)].
        -- exists [], line, rest. auto.
        -- exists (line :: pre), l, post. auto.
      * intros (pre & l & post & E & Hl & Hpre).
        destruct pre as [|p pre]; simpl in E; injection E as <- E.
        -- now left.
        -- right. exists pre, l, post. apply Forall_inv_tail in Hpre. auto.
Qed.

Lemma parse_lines_premature (lines : list string) :
  forall anns,
    premature_contentb lines = true ->
    parse_lines (anns, None) lines = Raise (UserError "Invalid diff").
Proof.
  induction lines as [|line rest IH]; intros anns H; simpl in *; [discriminate|].
  destruct (parse_line_cases (anns, None) line)
    as [(Hh & Hc & ->)|[(Hh & Hc & ->)|(Hh & Hc & ->)]];
    rewrite Hh, ?Hc in H; simpl in *; auto; discriminate.
Qed.

Lemma parse_lines_user_error (lines : list string) :
  forall st msg,
    parse_lines st lines = Raise (UserError msg) ->
    snd st = None /\ premature_contentb lines = true.
Proof.
  induction lines as [|line rest IH]; intros st msg H; simpl in *; [discriminate|].
  destruct (parse_line_cases st line)
    as [(Hh & Hc & E)|[(Hh & Hc & E)|(Hh & Hc & E)]];
    rewrite E in H; rewrite Hh, ?Hc; simpl in *.
  - now apply IH in H.
  - destruct (new_start_of_outcome line) as [[n En]|[En|En]];
      rewrite En in H; simpl in H; try discriminate.
    apply IH in H as [H _]. discriminate.
  - destruct (snd st) as [a|] eqn:Ea; simpl in H.
    + apply IH in H as [H _]. discriminate.
    + auto.
Qed.

Lemma parse_lines_returns (lines : list string) :
  forall st,
    (snd st = None -> premature_contentb lines = false) ->
    Forall header_is_parsable lines ->
    exists st', parse_lines st lines = Ok st'.
Proof.
  induction lines as [|line rest IH]; intros st Hpre Hhdr; simpl in *; [eauto|].
  apply Forall_cons_iff in Hhdr as [Hline Hrest].
  destruct (parse_line_cases st line)
    as [(Hh & Hc & E)|[(Hh & Hc & E)|(Hh & Hc & E)]];
    rewrite E; rewrite Hh, ?Hc in Hpre; simpl in *.
  - now apply IH.
  - destruct (Hline Hh) as [n ->]. simpl. apply IH; [discriminate|assumption].
  - destruct (snd st) as [a|] eqn:Ea; simpl.
    + apply IH; [discriminate|assumption].
    + now specialize (Hpre eq_refl).
Qed.

(** C5.  [_parse_diff] raises its [UserError] exactly when a content line
    comes before any hunk header; a diff with no such line, and whose hunk
    headers all carry a new range that lines 39 to 44 can read, is parsed
    into a list of annotations. *)
Theorem parse_error_iff_premature_content (diff : string) :
  ((exists msg, _parse_diff diff = Raise (UserError msg))
   <-> premature_content (body_of diff))
  /\ (~ premature_content (body_of diff) ->
      Forall header_is_parsable (body_of diff) ->
      exists annotations, _parse_diff diff = Ok annotations).
Proof.
  unfold _parse_diff. fold (body_of diff). split; [split|].
  - intros [msg H].
    destruct (parse_lines ([], None) (body_of diff)) as [st|e] eqn:E;
      simpl in H; [discriminate|]. injection H as ->.
    apply parse_lines_user_error in E as [_ E].
    now apply premature_content_reflect.
  - intros H. apply premature_content_reflect in H.
    rewrite (parse_lines_premature _ [] H). simpl. eauto.
  - intros Hno Hhdr.
    destruct (parse_lines_returns (body_of diff) ([], None)) as [st ->]; auto.
    + intros _. destruct (premature_contentb (body_of diff)) eqn:E; [|reflexivity].
      apply premature_content_reflect in E. contradiction.
    + simpl. eauto.
Qed.

Lemma parse_error_iff_premature_content_witness :
  exists annotations, _parse_diff diff_fixture = Ok annotations.
Proof.
  apply (proj2 (parse_error_iff_premature_content diff_fixture)).
  - intros H. apply premature_content_reflect in H. vm_compute in H. discriminate H.
  - repeat constructor; intros H; vm_compute in H; try discriminate H.
    exists 14. vm_compute. reflexivity.
Defined.

(** C5 as the specification words it fails: no content line comes before a
    hunk header here, and the parser raises [IndexError] on the header. *)
Lemma parse_need_not_return :
  ~ (~ premature_content (body_of diff_bare_header) ->
     exists annotations, _parse_diff diff_bare_header = Ok annotations).
Proof.
  intros H. destruct H as [annotations H].
  - intros Hp. apply premature_content_reflect in Hp. vm_compute in Hp. discriminate Hp.
  - vm_compute in H. discriminate H.
Qed.

Example parse_bare_header : _parse_diff diff_bare_header = Raise IndexError.
Proof. vm_compute. reflexivity. Qed.

(** The messages of the annotations gather the content lines, and nothing
    else, in the order of the diff. *)
Lemma flush_messages (st : parse_state) :
  flat_map message (flush st)
  = flat_map message (fst st)
    ++ match snd st with Some a => message a | None => [] end.
Proof.
  unfold flush. destruct (snd st) as [a|].
  - rewrite flat_map_app. simpl. now rewrite app_nil_r.
  - now rewrite app_nil_r.
Qed.

Lemma parse_lines_messages (lines : list string) :
  forall st st',
    parse_lines st lines = Ok st' ->
    flat_map message (flush st')
    = flat_map message (flush st) ++ List.filter is_content_line lines.
Proof.
  induction lines as [|line rest IH]; intros st st' H; simpl in *.
  - injection H as <-. now rewrite app_nil_r.
  - destruct (parse_line_cases st line)
      as [(Hh & Hc & E)|[(Hh & Hc & E)|(Hh & Hc & E)]];
      rewrite E in H; rewrite Hc; simpl in *.
    + now apply IH.
    + destruct (new_start_of line) as [n|e]; simpl in H; [|discriminate].
      apply IH in H. rewrite H. f_equal.
      rewrite (flush_messages (flush st, _)). simpl. now rewrite app_nil_r.
    + destruct (snd st) as [a|] eqn:Ea; simpl in H; [|discriminate].
      apply IH in H. rewrite H.
      rewrite (flush_messages (fst st, _)), (flush_messages st), Ea. simpl.
      now rewrite <- !app_assoc.
Qed.

Lemma insert_by_start_perm (a : DiffAnnotation) (l : list DiffAnnotation) :
  Permutation (insert_by_start a l) (a :: l).
Proof.
  induction l as [|b l IH]; simpl; [reflexivity|].
  destruct (start a <=? start b); [reflexivity|].
  rewrite IH. apply perm_swap.
Qed.

Lemma sort_by_start_perm (l : list DiffAnnotation) :
  Permutation (sort_by_start l) l.
Proof.
  induction l as [|a l IH]; simpl; [reflexivity|].
  rewrite insert_by_start_perm. now constructor.
Qed.

(** C9.  Every line of every message of a parsed diff starts with a plus or
    a minus; none starts with a file marker, with two slashes, with a space
    or with a backslash; and the messages together hold exactly the content
    lines of the diff, the other lines being passed over. *)
Theorem messages_hold_content_lines (diff : string) (annotations : list DiffAnnotation) :
  _parse_diff diff = Ok annotations ->
  Forall (fun a =>
    Forall (fun line =>
      (PyStr.startswith line "+" = true \/ PyStr.startswith line "-" = true)
      /\ PyStr.startswith line "---" = false
      /\ PyStr.startswith line "+++" = false
      /\ PyStr.startswith line "//" = false
      /\ PyStr.startswith line " " = false
      /\ PyStr.startswith line "\" = false) (message a)) annotations
  /\ Permutation (flat_map message annotations)
       (List.filter is_content_line (body_of diff)).
Proof.
  unfold _parse_diff. fold (body_of diff). intros H.
  destruct (parse_lines ([], None) (body_of diff)) as [st|e] eqn:E;
    simpl in H; [|discriminate].
  injection H as <-.
  apply parse_lines_messages in E. simpl in E.
  assert (Hperm : Permutation (flat_map message (sort_by_start (flush st)))
                    (List.filter is_content_line (body_of diff))).
  { rewrite <- E. apply Permutation_flat_map. apply sort_by_start_perm. }
  split; [|exact Hperm].
  apply List.Forall_forall. intros a Ha.
  apply List.Forall_forall. intros line Hline.
  assert (Hin : In line (List.filter is_content_line (body_of diff))).
  { eapply Permutation_in; [exact Hperm|].
    apply in_flat_map. eauto. }
  apply filter_In in Hin as [_ Hc].
  pose proof (content_line_head line Hc) as (Hi & _ & Hs & Hsp & Hb).
  unfold is_content_line in Hc.
  apply andb_true_iff in Hc as [Hc H3]. apply andb_true_iff in Hc as [Hc H2].
  apply negb_true_iff in H2, H3.
  apply orb_true_iff in Hc. auto 10.
Qed.

Lemma messages_hold_content_lines_witness :
  Permutation
    (flat_map message [mkDiffAnnotation 14 ["-    return a / b"; "+    return commit3"]])
    (List.filter is_content_line (body_of diff_fixture)).
Proof.
  apply (messages_hold_content_lines diff_fixture). vm_compute. reflexivity.
Defined.

(** ** Properties of the weaver *)

(** C10.  With no annotation the weaver gives the listing back. *)
Theorem weave_no_annotation (code_message : list string) :
  _annotate_file_message code_message [] = Ok code_message.
Proof.
  unfold _annotate_file_message. simpl.
  destruct code_message as [|x l]; [reflexivity|].
  change (Z.of_nat (length (x :: l))) with (Z.of_nat (S (length l))).
  destruct (Z.ltb_spec 0 (Z.of_nat (S (length l)))) as [_|H]; [|lia].
  unfold PyStr.slice_from, PyStr.clamp. simpl (0 <? 0).
  rewrite Z.min_l by lia. reflexivity.
Qed.

(** C6 as the specification words it fails: with the hunk header
    [@@ -1,3 +1,3 @@] the two lines are tagged 1, not 14, and the last entry
    of the listing stays. *)
Lemma scenario_D_as_worded_fails :
  annotate_with_diff diff_D listing_D
  <> Ok (removelast listing_D ++ ["14:-    return a / b"; "14:+    return commit3"]).
Proof. vm_compute. discriminate. Qed.

Example scenario_D_as_worded_gives :
  annotate_with_diff diff_D listing_D
  = Ok ("multifile_calculator/operations.py"
          :: ["1:-    return a / b"; "1:+    return commit3"]
          ++ skipn 2 listing_D).
Proof. vm_compute. reflexivity. Qed.

(** C6, amended.  With the hunk header [@@ -14 +14 @@] of the test and a
    listing of fifteen entries (the path, then the lines numbered 0 to 13),
    the result is the listing without its last entry, followed by the
    removed and the added line, both tagged 14. *)
Theorem scenario_D (listing : list string) :
  length listing = 15%nat ->
  annotate_with_diff diff_fixture listing
  = Ok (removelast listing ++ ["14:-    return a / b"; "14:+    return commit3"]).
Proof.
  intros Hlen.
  do 15 (destruct listing as [|? listing]; [discriminate Hlen|]).
  destruct listing; [|discriminate Hlen].
  vm_compute. reflexivity.
Qed.

Lemma scenario_D_witness :
  annotate_with_diff diff_fixture listing_fixture
  = Ok (removelast listing_fixture ++ ["14:-    return a / b"; "14:+    return commit3"]).
Proof. apply (scenario_D listing_fixture). reflexivity. Defined.

Lemma startswith_char (c : ascii) (r : string) (p : ascii) :
  PyStr.startswith (String c r) (String p EmptyString) = Ascii.eqb c p.
Proof.
  unfold PyStr.startswith. simpl.
  destruct (ascii_dec p c) as [->|Hne].
  - rewrite Ascii.eqb_refl. now destruct r.
  - symmetry. apply Ascii.eqb_neq. congruence.
Qed.

Lemma DiffAnnotation_length_count (a : DiffAnnotation) :
  DiffAnnotation_length a = count_plus (message a).
Proof.
  unfold DiffAnnotation_length, count_plus.
  induction (message a) as [|line rest IH]; [reflexivity|].
  simpl. rewrite IH. destruct (PyStr.startswith line "+"); simpl length; lia.
Qed.

Lemma count_plus_snoc (before : list string) (line : string) :
  count_plus (before ++ [line])
  = count_plus before + (if PyStr.startswith line "+" then 1 else 0).
Proof.
  unfold count_plus. rewrite List.filter_app, length_app. simpl.
  destruct (PyStr.startswith line "+"); simpl; lia.
Qed.

Lemma minus_run_snoc (before : list string) (line : string) :
  minus_run (before ++ [line])
  = if PyStr.startswith line "+" then 0
    else (if PyStr.startswith line "-" then 1 else 0) + minus_run before.
Proof. unfold minus_run. rewrite rev_unit. reflexivity. Qed.

(** One iteration of the inner loop, read against the lines already seen:
    [i_minus], unset or not, stands for the run of minus lines so far. *)
Lemma weave_line_emitted (a_start cursor : Z) (before : list string)
  (w : weave_state) (i_minus : option Z) (line : string) :
  line <> EmptyString ->
  active_index w = cursor + count_plus before ->
  default 0 i_minus = minus_run before ->
  exists w' i_minus',
    weave_line a_start (w, i_minus) line = Ok (w', i_minus')
    /\ active_index w' = cursor + count_plus (before ++ [line])
    /\ default 0 i_minus' = minus_run (before ++ [line])
    /\ annotated_message w'
       = annotated_message w ++ emitted_line a_start cursor before line.
Proof.
  intros Hne Hcur Hrun. destruct line as [|sign r]; [contradiction|].
  unfold weave_line, emitted_line.
  rewrite count_plus_snoc, minus_run_snoc, !startswith_char.
  destruct (Ascii.eqb sign "+") eqn:Hp.
  - eexists _, _. split; [reflexivity|]. simpl. rewrite Hcur.
    repeat split; lia.
  - destruct (Ascii.eqb sign "-") eqn:Hm.
    + eexists _, _. split; [reflexivity|]. simpl.
      assert (Hi : match i_minus with Some i => i | None => 0 end = minus_run before)
        by (destruct i_minus; exact Hrun).
      rewrite Hi. repeat split; lia.
    + eexists _, _. split; [reflexivity|]. simpl. rewrite app_nil_r.
      repeat split; lia.
Qed.

Lemma weave_lines_emitted (a_start cursor : Z) (rest : list string) :
  forall before w i_minus,
    Forall (fun line => line <> EmptyString) rest ->
    active_index w = cursor + count_plus before ->
    default 0 i_minus = minus_run before ->
    exists w' i_minus',
      weave_lines a_start (w, i_minus) rest = Ok (w', i_minus')
      /\ active_index w' = cursor + count_plus (before ++ rest)
      /\ annotated_message w'
         = annotated_message w ++ emitted_after a_start cursor before rest.
Proof.
  induction rest as [|line rest IH]; intros before w i_minus Hne Hcur Hrun;
    cbn [weave_lines emitted_after].
  - exists w, i_minus. rewrite !app_nil_r. auto.
  - apply Forall_cons_iff in Hne as [Hline Hrest].
    destruct (weave_line_emitted a_start cursor before w i_minus line Hline Hcur Hrun)
      as (w1 & i1 & -> & Hcur1 & Hrun1 & Hout1).
    cbn [rbind].
    destruct (IH (before ++ [line]) w1 i1 Hrest Hcur1 Hrun1)
      as (w2 & i2 & -> & Hcur2 & Hout2).
    exists w2, i2. split; [reflexivity|].
    rewrite <- app_assoc in Hcur2. simpl in Hcur2. split; [exact Hcur2|].
    now rewrite Hout2, Hout1, <- app_assoc.
Qed.

Lemma weave_annotation_emitted (code_message : list string) (w : weave_state)
  (a : DiffAnnotation) :
  code_message <> [] ->
  Forall (fun line => line <> EmptyString) (message a) ->
  exists w',
    weave_annotation code_message w a = Ok w'
    /\ active_index w' = entry_cursor a + DiffAnnotation_length a
    /\ annotated_message w'
       = annotated_message w
         ++ (if active_index w <? start a
             then PyStr.slice code_message (active_index w) (start a) else [])
         ++ (if start a =? 0 then firstn 1 code_message else [])
         ++ emitted (start a) (entry_cursor a) (message a).
Proof.
  intros Hlisting Hne. unfold weave_annotation, entry_cursor, emitted.
  rewrite DiffAnnotation_length_count.
  destruct code_message as [|path listing]; [contradiction|].
  set (out1 := if active_index w <? start a then _ else _).
  destruct (start a =? 0) eqn:Hz; simpl rbind.
  - apply Z.eqb_eq in Hz.
    destruct (weave_lines_emitted (start a) 1 (message a) []
                (mkWeave (start a + 1) (out1 ++ [path])) None Hne)
      as (w' & i' & -> & Hcur & Hout); [simpl; unfold count_plus; simpl; lia|reflexivity|].
    exists w'. split; [reflexivity|]. split; [exact Hcur|].
    rewrite Hout. simpl. subst out1.
    destruct (active_index w <? start a); now rewrite <- !app_assoc.
  - destruct (weave_lines_emitted (start a) (start a) (message a) []
                (mkWeave (start a) out1) None Hne)
      as (w' & i' & -> & Hcur & Hout); [simpl; unfold count_plus; simpl; lia|reflexivity|].
    exists w'. split; [reflexivity|]. split; [exact Hcur|].
    rewrite Hout. simpl. subst out1.
    destruct (active_index w <? start a); now rewrite <- ?app_assoc.
Qed.

Lemma weave_annotations_woven (code_message : list string)
  (annotations : list DiffAnnotation) :
  forall w,
    code_message <> [] ->
    Forall (fun a => Forall (fun line => line <> EmptyString) (message a)) annotations ->
    exists w',
      weave_annotations code_message w annotations = Ok w'
      /\ annotated_message w'
         ++ (if active_index w' <? Z.of_nat (length code_message)
             then PyStr.slice_from code_message (active_index w') else [])
         = annotated_message w ++ woven code_message (active_index w) annotations.
Proof.
  induction annotations as [|a rest IH]; intros w Hlisting Hne;
    cbn [weave_annotations woven].
  - exists w. auto.
  - apply Forall_cons_iff in Hne as [Ha Hrest].
    destruct (weave_annotation_emitted code_message w a Hlisting Ha)
      as (w1 & -> & Hcur & Hout). cbn [rbind].
    destruct (IH w1 Hlisting Hrest) as (w2 & -> & Hfinal).
    exists w2. split; [reflexivity|].
    rewrite Hfinal, Hout, Hcur. now rewrite <- !app_assoc.
Qed.

(** C3.  The weaver, step by step and in closed form.  A line of a message
    that starts with a plus is emitted with the cursor as its tag, moves the
    cursor on by one and unsets [i_minus]; a line that starts with a minus
    is emitted with the start of the annotation plus [i_minus] as its tag,
    [i_minus] counting from 0 when it is unset, leaves the cursor where it
    is and moves [i_minus] on by one.  Over a whole listing this comes to:
    a plus line is tagged with the cursor at which its message began plus
    the number of plus lines before it, a minus line with the start of its
    annotation plus the number of minus lines since the last plus line or
    since the beginning of the message; ahead of each annotation the lines
    of the listing from the cursor up to its start are copied, and at the
    end the lines from the cursor on.  This holds for annotations in
    ascending order of start as for any other list of annotations. *)
Theorem weave_closed_form (code_message : list string)
  (annotations : list DiffAnnotation) :
  (forall a_start w i_minus rest,
     weave_line a_start (w, i_minus) (String "+" rest)
     = Ok (mkWeave (active_index w + 1)
             (annotated_message w ++ [PyStr.tagged (active_index w) (String "+" rest)]),
           None))
  /\ (forall a_start w i_minus rest,
        weave_line a_start (w, i_minus) (String "-" rest)
        = Ok (mkWeave (active_index w)
                (annotated_message w
                 ++ [PyStr.tagged (a_start + default 0 i_minus) (String "-" rest)]),
              Some (default 0 i_minus + 1)))
  /\ (code_message <> [] ->
      Forall (fun a => Forall (fun line => line <> EmptyString) (message a)) annotations ->
      _annotate_file_message code_message annotations
      = Ok (woven code_message 0 annotations)).
Proof.
  split; [|split].
  - reflexivity.
  - intros a_start w [i|] rest; reflexivity.
  - intros Hlisting Hne. unfold _annotate_file_message.
    destruct (weave_annotations_woven code_message annotations (mkWeave 0 [])
                Hlisting Hne) as (w' & -> & Hfinal).
    simpl in *. f_equal.
    destruct (active_index w' <? Z.of_nat (length code_message));
      [exact Hfinal | now rewrite app_nil_r in Hfinal].
Qed.

(** ** Parsing and weaving a diff without context lines *)

Lemma removed_line_content (line : string) :
  removed_line line ->
  is_content_line line = true /\ PyStr.startswith line "+" = false
  /\ line <> EmptyString.
Proof.
  intros [Hm H3]. unfold is_content_line, is_change_line. rewrite Hm, H3.
  apply startswith_cons in Hm as (r & -> & _).
  rewrite !startswith_head by discriminate. repeat split. discriminate.
Qed.

Lemma added_line_content (line : string) :
  added_line line ->
  is_content_line line = true /\ line <> EmptyString.
Proof.
  intros [Hp H3]. unfold is_content_line, is_change_line. rewrite Hp, H3.
  apply startswith_cons in Hp as (r & -> & _).
  rewrite !startswith_head by discriminate. repeat split. discriminate.
Qed.

Lemma hunk_body_content (h : hunk) :
  well_formed_hunk h ->
  Forall (fun line => is_content_line line = true) (removed h ++ added h)
  /\ Forall (fun line => line <> EmptyString) (removed h ++ added h).
Proof.
  intros (_ & _ & _ & Hr & Ha & _).
  split; apply Forall_app; split;
    (eapply List.Forall_impl; [|eassumption]); intros line Hl;
    first [apply removed_line_content in Hl | apply added_line_content in Hl];
    tauto.
Qed.

Lemma parse_lines_body (body : list string) :
  forall anns s msg,
    Forall (fun line => is_content_line line = true) body ->
    parse_lines (anns, Some (mkDiffAnnotation s msg)) body
    = Ok (anns, Some (mkDiffAnnotation s (msg ++ body))).
Proof.
  induction body as [|line body IH]; intros anns s msg Hb; cbn [parse_lines].
  - now rewrite app_nil_r.
  - apply Forall_cons_iff in Hb as [Hline Hb].
    destruct (parse_line_cases (anns, Some (mkDiffAnnotation s msg)) line)
      as [(_ & Hc & _)|[(_ & Hc & _)|(_ & _ & ->)]]; try congruence.
    cbn [rbind snd fst start message]. rewrite IH by assumption.
    now rewrite <- app_assoc.
Qed.

Lemma parse_lines_app (l1 : list string) :
  forall st0 l2 st1,
    parse_lines st0 l1 = Ok st1 ->
    parse_lines st0 (l1 ++ l2) = parse_lines st1 l2.
Proof.
  induction l1 as [|x l1 IHl]; intros st0 l2 st1 H; cbn [parse_lines app] in *.
  - now injection H as ->.
  - destruct (parse_line st0 x); cbn [rbind] in *; [|discriminate]. now apply IHl.
Qed.

(** The parser passes over the marker of a missing line feed. *)
Lemma parse_lines_marker (b : bool) (st : parse_state) :
  parse_lines st (marker_if b) = Ok st.
Proof. destruct b; reflexivity. Qed.

Lemma parse_lines_hunk_body (h : hunk) (anns : list DiffAnnotation) (s : Z) :
  well_formed_hunk h ->
  parse_lines (anns, Some (mkDiffAnnotation s []))
    (removed h ++ marker_if (old_no_newline h)
     ++ added h ++ marker_if (new_no_newline h))
  = Ok (anns, Some (mkDiffAnnotation s (removed h ++ added h))).
Proof.
  intros Hh. pose proof (hunk_body_content h Hh) as [Hbody _].
  apply Forall_app in Hbody as [Hr Ha].
  rewrite (parse_lines_app _ _ _ _ (parse_lines_body (removed h) anns s [] Hr)).
  rewrite (parse_lines_app _ _ _ _ (parse_lines_marker _ _)).
  rewrite (parse_lines_app _ _ _ _ (parse_lines_body (added h) anns s _ Ha)).
  now rewrite parse_lines_marker.
Qed.

Lemma parse_lines_hunks (hunks : list hunk) :
  forall st,
    Forall well_formed_hunk hunks ->
    exists st',
      parse_lines st (flat_map hunk_lines hunks) = Ok st'
      /\ flush st' = flush st ++ map annotation_of hunks.
Proof.
  induction hunks as [|h rest IH]; intros st Hwf; cbn [flat_map map].
  - exists st. now rewrite app_nil_r.
  - apply Forall_cons_iff in Hwf as [Hh Hrest].
    pose proof (parse_lines_hunk_body h (flush st) (new_start h) Hh) as Hbody.
    destruct Hh as (Hhdr & _ & Hnew & _).
    unfold hunk_lines at 1. cbn [app parse_lines].
    destruct (parse_line_cases st (header h))
      as [(Hc & _)|[(_ & _ & ->)|(Hc & _)]]; try congruence.
    rewrite Hnew. cbn [rbind].
    rewrite (parse_lines_app _ _ _ _ Hbody).
    destruct (IH (flush st, Some (mkDiffAnnotation (new_start h) (removed h ++ added h)))
                Hrest) as (st' & -> & Hflush).
    exists st'. split; [reflexivity|].
    rewrite Hflush. unfold flush at 1. cbn [snd fst app].
    now rewrite <- app_assoc.
Qed.

Lemma hunks_in_order_bound (hunks : list hunk) :
  forall cursor,
    Forall (fun h => 0 <= new_start h) hunks ->
    hunks_in_order cursor hunks ->
    Forall (fun h => cursor <= new_start h) hunks.
Proof.
  induction hunks as [|h rest IH]; intros cursor Hpos Hord; [constructor|].
  apply Forall_cons_iff in Hpos as [Hh Hpos]. destruct Hord as [Hc Hord].
  constructor; [exact Hc|].
  eapply List.Forall_impl; [|apply (IH _ Hpos Hord)].
  intros h' Hle. cbv beta in *. unfold hunk_exit, hunk_entry in Hle.
  destruct (new_start h =? 0) eqn:E; lia.
Qed.

Lemma sort_by_start_in_order (hunks : list hunk) :
  forall cursor,
    Forall (fun h => 0 <= new_start h) hunks ->
    hunks_in_order cursor hunks ->
    sort_by_start (map annotation_of hunks) = map annotation_of hunks.
Proof.
  induction hunks as [|h rest IH]; intros cursor Hpos Hord; [reflexivity|].
  apply Forall_cons_iff in Hpos as [Hh Hpos]. destruct Hord as [Hc Hord].
  cbn [map sort_by_start]. rewrite (IH _ Hpos Hord).
  pose proof (hunks_in_order_bound rest _ Hpos Hord) as Hb.
  destruct rest as [|h' rest]; [reflexivity|].
  apply Forall_inv in Hb. cbn [map insert_by_start annotation_of start].
  unfold hunk_exit, hunk_entry in Hb.
  destruct (Z.leb_spec (new_start h) (new_start h')) as [_|Hlt]; [reflexivity|].
  destruct (new_start h =? 0) eqn:E; lia.
Qed.

Lemma parse_diff_hunks (diff : string) (hunks : list hunk) :
  body_of diff = flat_map hunk_lines hunks ->
  Forall well_formed_hunk hunks ->
  hunks_in_order 0 hunks ->
  _parse_diff diff = Ok (map annotation_of hunks).
Proof.
  intros Hbody Hwf Hord. unfold _parse_diff. fold (body_of diff). rewrite Hbody.
  destruct (parse_lines_hunks hunks ([], None) Hwf) as (st & -> & Hflush).
  cbn [rbind]. rewrite Hflush. cbn [flush snd fst app]. f_equal.
  apply (sort_by_start_in_order hunks 0); [|exact Hord].
  eapply List.Forall_impl; [|exact Hwf]. intros h Hh. apply Hh.
Qed.

Lemma slice_segment (listing : list string) (lo hi : Z) :
  0 <= lo -> lo <= hi -> PyStr.slice listing lo hi = segment listing lo hi.
Proof.
  intros Hlo Hhi. unfold PyStr.slice, segment, PyStr.clamp.
  destruct (Z.ltb_spec lo 0) as [?|_]; [lia|].
  destruct (Z.ltb_spec hi 0) as [?|_]; [lia|].
  destruct (Z.le_gt_cases (Z.of_nat (length listing)) lo) as [Hout|Hin].
  - rewrite !skipn_all2 by lia. now rewrite !firstn_nil.
  - rewrite (Z.min_l lo) by lia.
    destruct (Z.le_gt_cases hi (Z.of_nat (length listing))) as [Hh|Hh].
    + now rewrite Z.min_l by lia.
    + rewrite Z.min_r by lia.
      rewrite !firstn_all2; [reflexivity| |]; rewrite length_skipn; lia.
Qed.

Lemma tail_copy_skipn (listing : list string) (cursor : Z) :
  0 <= cursor ->
  (if cursor <? Z.of_nat (length listing)
   then PyStr.slice_from listing cursor else [])
  = skipn (Z.to_nat cursor) listing.
Proof.
  intros Hc. unfold PyStr.slice_from, PyStr.clamp.
  destruct (Z.ltb_spec cursor (Z.of_nat (length listing))) as [Hin|Hout].
  - destruct (Z.ltb_spec cursor 0) as [?|_]; [lia|]. now rewrite Z.min_l by lia.
  - symmetry. apply skipn_all2. lia.
Qed.

Lemma count_plus_app (a b : list string) :
  count_plus (a ++ b) = count_plus a + count_plus b.
Proof. unfold count_plus. rewrite List.filter_app, length_app. lia. Qed.

Lemma count_plus_removed (lines : list string) :
  Forall removed_line lines -> count_plus lines = 0.
Proof.
  induction 1 as [|line rest Hl _ IH]; [reflexivity|].
  change (line :: rest) with ([line] ++ rest). rewrite count_plus_app, IH.
  apply removed_line_content in Hl as (_ & Hp & _).
  unfold count_plus. simpl. now rewrite Hp.
Qed.

Lemma count_plus_added (lines : list string) :
  Forall added_line lines -> count_plus lines = Z.of_nat (length lines).
Proof.
  induction 1 as [|line rest [Hp _] _ IH]; [reflexivity|].
  change (line :: rest) with ([line] ++ rest). rewrite count_plus_app, IH.
  unfold count_plus. simpl. rewrite Hp. simpl. lia.
Qed.

Lemma emitted_after_removed (a_start cursor : Z) (lines : list string) :
  forall before rest,
    Forall removed_line lines ->
    emitted_after a_start cursor before (lines ++ rest)
    = tag_from (a_start + minus_run before) lines
      ++ emitted_after a_start cursor (before ++ lines) rest.
Proof.
  induction lines as [|line lines IH]; intros before rest Hl;
    cbn [app emitted_after tag_from].
  - now rewrite app_nil_r.
  - apply Forall_cons_iff in Hl as [Hline Hl].
    rewrite (IH _ _ Hl), minus_run_snoc.
    pose proof (removed_line_content line Hline) as (_ & Hp & _).
    destruct Hline as [Hm _].
    unfold emitted_line. rewrite Hp, Hm. cbn [app].
    rewrite <- app_assoc. cbn [app].
    do 2 f_equal. f_equal. lia.
Qed.

Lemma emitted_after_added (a_start cursor : Z) (lines : list string) :
  forall before,
    Forall added_line lines ->
    emitted_after a_start cursor before lines
    = tag_from (cursor + count_plus before) lines.
Proof.
  induction lines as [|line lines IH]; intros before Hl;
    cbn [emitted_after tag_from]; [reflexivity|].
  apply Forall_cons_iff in Hl as [[Hp _] Hl].
  rewrite (IH _ Hl), count_plus_snoc.
  unfold emitted_line. rewrite Hp. cbn [app].
  do 2 f_equal. lia.
Qed.

Lemma emitted_hunk (h : hunk) :
  well_formed_hunk h ->
  emitted (new_start h) (hunk_entry h) (removed h ++ added h) = hunk_block h.
Proof.
  intros (_ & _ & _ & Hr & Ha & _ & Hzero).
  unfold emitted, hunk_block.
  rewrite (emitted_after_removed _ _ _ [] _ Hr), (emitted_after_added _ _ _ _ Ha).
  cbn [app]. rewrite (count_plus_removed _ Hr).
  unfold minus_run. cbn [rev minus_run_back]. rewrite !Z.add_0_r.
  f_equal. unfold hunk_entry.
  destruct (Z.eqb_spec (new_start h) 0) as [E|_]; [|reflexivity].
  now rewrite (Hzero E).
Qed.

(** On a diff without context whose hunks are in order, the closed form of
    the weaver is the listing with the block of each hunk put in. *)
Lemma woven_interleaved (listing : list string) (hunks : list hunk) :
  forall cursor,
    0 <= cursor ->
    Forall well_formed_hunk hunks ->
    hunks_in_order cursor hunks ->
    woven listing cursor (map annotation_of hunks)
    = interleaved hunk_block listing cursor hunks.
Proof.
  induction hunks as [|h rest IH]; intros cursor Hc Hwf Hord;
    cbn [map woven interleaved].
  - now apply tail_copy_skipn.
  - apply Forall_cons_iff in Hwf as [Hh Hwf]. destruct Hord as [Hle Hord].
    pose proof Hh as (_ & _ & _ & Hr & Ha & Hpos & Hzero).
    change (entry_cursor (annotation_of h)) with (hunk_entry h).
    change (message (annotation_of h)) with (removed h ++ added h).
    change (start (annotation_of h)) with (new_start h).
    rewrite (emitted_hunk h Hh), DiffAnnotation_length_count.
    change (message (annotation_of h)) with (removed h ++ added h).
    rewrite count_plus_app, (count_plus_removed _ Hr), (count_plus_added _ Ha).
    rewrite Z.add_0_l. fold (hunk_exit h).
    assert (Hexit : 0 <= hunk_exit h).
    { unfold hunk_exit, hunk_entry. destruct (new_start h =? 0); lia. }
    rewrite (IH _ Hexit Hwf Hord). rewrite app_assoc. f_equal.
    unfold hunk_entry.
    destruct (Z.eqb_spec (new_start h) 0) as [E|E].
    + rewrite E in *. assert (cursor = 0) as -> by lia. reflexivity.
    + rewrite app_nil_r.
      destruct (Z.ltb_spec cursor (new_start h)) as [Hlt|Hge].
      * apply slice_segment; lia.
      * assert (cursor = new_start h) as -> by lia.
        unfold segment. now rewrite Z.sub_diag.
Qed.

Lemma outside_from_no_hunk (listing : list string) :
  forall i, outside_from i listing [] = listing.
Proof.
  induction listing as [|entry rest IH]; intros i; cbn; [reflexivity|].
  now rewrite IH.
Qed.

Lemma outside_from_kept (hunks : list hunk) (n : nat) :
  forall i listing,
    (forall j, i <= j < i + Z.of_nat n -> existsb (in_added_region j) hunks = false) ->
    outside_from i listing hunks
    = firstn n listing ++ outside_from (i + Z.of_nat n) (skipn n listing) hunks.
Proof.
  induction n as [|n IH]; intros i listing Hout.
  - cbn [firstn skipn app]. now rewrite Z.add_0_r.
  - destruct listing as [|entry rest]; [reflexivity|].
    cbn [outside_from firstn skipn]. rewrite (Hout i) by lia. cbn [app].
    rewrite (IH (i + 1) rest) by (intros j Hj; apply Hout; lia).
    do 3 f_equal. lia.
Qed.

Lemma outside_from_dropped (hunks : list hunk) (n : nat) :
  forall i listing,
    (forall j, i <= j < i + Z.of_nat n -> existsb (in_added_region j) hunks = true) ->
    outside_from i listing hunks
    = outside_from (i + Z.of_nat n) (skipn n listing) hunks.
Proof.
  induction n as [|n IH]; intros i listing Hin.
  - cbn [skipn]. now rewrite Z.add_0_r.
  - destruct listing as [|entry rest]; [reflexivity|].
    cbn [outside_from skipn]. rewrite (Hin i) by lia. cbn [app].
    rewrite (IH (i + 1) rest) by (intros j Hj; apply Hin; lia).
    f_equal. lia.
Qed.

Lemma outside_from_past (h : hunk) (hunks : list hunk) (listing : list string) :
  forall i,
    new_start h + Z.of_nat (length (added h)) <= i ->
    outside_from i listing (h :: hunks) = outside_from i listing hunks.
Proof.
  induction listing as [|entry rest IH]; intros i Hi; cbn [outside_from existsb];
    [reflexivity|].
  rewrite IH by lia. unfold in_added_region at 1.
  destruct (Z.ltb_spec i (new_start h + Z.of_nat (length (added h)))); [lia|].
  now rewrite andb_false_r.
Qed.

Lemma region_free (hunks : list hunk) (j : Z) :
  Forall (fun h => j < new_start h) hunks ->
  existsb (in_added_region j) hunks = false.
Proof.
  induction 1 as [|h rest Hh _ IH]; [reflexivity|].
  cbn [existsb]. rewrite IH. unfold in_added_region.
  destruct (Z.leb_spec (new_start h) j); [lia|reflexivity].
Qed.

(** Taking the blocks out of the woven listing leaves the entries that no
    hunk added, each once and in order. *)
Lemma interleaved_outside (listing : list string) (hunks : list hunk) :
  forall cursor,
    0 <= cursor ->
    Forall well_formed_hunk hunks ->
    hunks_in_order cursor hunks ->
    interleaved (fun _ => []) listing cursor hunks
    = outside_from cursor (skipn (Z.to_nat cursor) listing) hunks.
Proof.
  induction hunks as [|h rest IH]; intros cursor Hc Hwf Hord; cbn [interleaved].
  - now rewrite outside_from_no_hunk.
  - apply Forall_cons_iff in Hwf as [Hh Hwf]. destruct Hord as [Hle Hord].
    pose proof Hh as (_ & _ & _ & _ & _ & Hpos & Hzero).
    assert (Hposs : Forall (fun h => 0 <= new_start h) rest).
    { eapply List.Forall_impl; [|exact Hwf]. intros h' Hh'. apply Hh'. }
    pose proof (hunks_in_order_bound rest _ Hposs Hord) as Hbound.
    assert (Hentry : cursor <= hunk_entry h)
      by (unfold hunk_entry; destruct (Z.eqb_spec (new_start h) 0); lia).
    assert (Hexit : 0 <= hunk_exit h) by (unfold hunk_exit; lia).
    rewrite (IH _ Hexit Hwf Hord). cbn [app]. unfold segment.
    set (n := Z.to_nat (hunk_entry h - cursor)).
    set (a := length (added h)).
    rewrite (outside_from_kept (h :: rest) n cursor).
    2:{ intros j Hj. cbn [existsb].
        rewrite (region_free rest j).
        2:{ eapply List.Forall_impl; [|exact Hbound].
            intros h' Hh'. cbv beta in *. unfold hunk_exit in Hh'. lia. }
        rewrite orb_false_r. unfold in_added_region, hunk_entry in *.
        destruct (Z.eqb_spec (new_start h) 0) as [E|E].
        - rewrite (Hzero E). cbn [length]. rewrite Z.add_0_r.
          destruct (Z.leb_spec (new_start h) j); [|reflexivity].
          destruct (Z.ltb_spec j (new_start h)); [lia|reflexivity].
        - destruct (Z.leb_spec (new_start h) j); [lia|reflexivity]. }
    f_equal. rewrite skipn_skipn.
    replace (cursor + Z.of_nat n) with (hunk_entry h) by lia.
    replace (n + Z.to_nat cursor)%nat with (Z.to_nat (hunk_entry h)) by lia.
    rewrite (outside_from_dropped (h :: rest) a (hunk_entry h)).
    2:{ intros j Hj. cbn [existsb]. apply orb_true_iff. left.
        unfold in_added_region, hunk_entry in *. fold a.
        destruct (Z.eqb_spec (new_start h) 0) as [E|E].
        - subst a. rewrite (Hzero E) in Hj. cbn [length] in Hj. lia.
        - apply andb_true_iff. split; [apply Z.leb_le | apply Z.ltb_lt]; lia. }
    rewrite skipn_skipn. fold (hunk_exit h).
    replace (hunk_entry h + Z.of_nat a) with (hunk_exit h) by reflexivity.
    replace (a + Z.to_nat (hunk_entry h))%nat with (Z.to_nat (hunk_exit h))
      by (unfold hunk_exit; fold a; lia).
    symmetry. apply outside_from_past. unfold hunk_exit, hunk_entry. fold a.
    destruct (Z.eqb_spec (new_start h) 0); lia.
Qed.

Lemma weave_closed_form_witness :
  _annotate_file_message ["p.py"; "1:a"; "2:b"; "3:c"; ""]
    [mkDiffAnnotation 2 ["-x"; "-y"; "+b"; "-z"; "+c"]]
  = Ok ["p.py"; "1:a"; "2:-x"; "3:-y"; "2:+b"; "2:-z"; "3:+c"; ""].
Proof.
  apply (proj2 (proj2 (weave_closed_form ["p.py"; "1:a"; "2:b"; "3:c"; ""]
                         [mkDiffAnnotation 2 ["-x"; "-y"; "+b"; "-z"; "+c"]]))).
  - discriminate.
  - repeat constructor; discriminate.
Defined.

(** C4, amended.  For a diff without context lines whose hunks are in
    ascending order and do not overlap in the new file, each hunk being
    its removed lines and then its added lines, with the marker of a
    missing line feed after either where [git] puts it, and each hunk
    carrying as its new start the number of its first added line (0 when
    it removes lines at the top and adds none): parsing and then weaving
    puts in, for each hunk, its removed lines numbered from the new start
    of the hunk and then its added lines numbered from that same start,
    which is their position in the new file; and the woven listing without
    these blocks is the listing without the entries that the hunks added,
    each entry once, unchanged and in order. *)
Theorem parse_then_weave (diff : string) (hunks : list hunk) (listing : list string) :
  body_of diff = flat_map hunk_lines hunks ->
  Forall well_formed_hunk hunks ->
  Forall anchored hunks ->
  hunks_in_order 0 hunks ->
  listing <> [] ->
  annotate_with_diff diff listing = Ok (interleaved hunk_block listing 0 hunks)
  /\ interleaved (fun _ => []) listing 0 hunks = outside_from 0 listing hunks.
Proof.
  intros Hbody Hwf _ Hord Hlisting. split.
  - unfold annotate_with_diff.
    rewrite (parse_diff_hunks diff hunks Hbody Hwf Hord). cbn [rbind].
    unfold _annotate_file_message.
    destruct (weave_annotations_woven listing (map annotation_of hunks)
                (mkWeave 0 []) Hlisting) as (w & -> & Hfinal).
    { apply Forall_map. eapply List.Forall_impl; [|exact Hwf].
      intros h Hh. now apply hunk_body_content. }
    cbn [rbind]. f_equal. cbn [annotated_message active_index app] in Hfinal.
    rewrite <- (woven_interleaved listing hunks 0) by (auto; lia).
    destruct (active_index w <? Z.of_nat (length listing));
      [exact Hfinal | now rewrite app_nil_r in Hfinal].
  - now apply (interleaved_outside listing hunks 0).
Qed.

Lemma well_formed_hunks_two : Forall well_formed_hunk hunks_two.
Proof.
  repeat constructor; try (vm_compute; reflexivity); try discriminate.
  all: cbn; intros; discriminate.
Qed.

Lemma well_formed_hunks_open_end : Forall well_formed_hunk hunks_open_end.
Proof.
  repeat constructor; try (vm_compute; reflexivity); try discriminate.
  all: cbn; intros; discriminate.
Qed.

Lemma parse_then_weave_witness :
  annotate_with_diff diff_open_end listing_two
  = Ok ["p.py"; "1:+x"; "2:a"; "3:-b"; "3:+c"; ""]
  /\ outside_from 0 listing_two hunks_open_end = ["p.py"; "2:a"; ""].
Proof.
  destruct (parse_then_weave diff_open_end hunks_open_end listing_two) as [Hout Hkept].
  - vm_compute. reflexivity.
  - exact well_formed_hunks_open_end.
  - repeat constructor; intros H; discriminate H.
  - cbn [hunks_in_order hunks_open_end]. repeat split; vm_compute; discriminate.
  - discriminate.
  - split; [exact Hout|]. rewrite <- Hkept. reflexivity.
Defined.

(** C4 as the specification words it fails: a line is added at the top of a
    two-line file and its second line is replaced; the line removed from
    line 2 of the old file is shown under the number 3, the new start of
    its hunk, and not under 2. *)
Lemma removed_lines_not_at_old_numbers :
  ~ (forall out,
       annotate_with_diff diff_two listing_two = Ok out ->
       removed_at_old_numbers hunks_two out).
Proof.
  intros H.
  specialize (H ["p.py"; "1:+x"; "2:a"; "3:-b"; "3:+c"; ""]).
  assert (Hrun : annotate_with_diff diff_two listing_two
                 = Ok ["p.py"; "1:+x"; "2:a"; "3:-b"; "3:+c"; ""])
    by (vm_compute; reflexivity).
  specialize (H Hrun (mkHunk "@@ -2 +3 @@" 2 3 ["-b"] ["+c"] false false) 0%nat "-b").
  assert (Hin : In (PyStr.tagged (2 + Z.of_nat 0) "-b")
                  ["p.py"; "1:+x"; "2:a"; "3:-b"; "3:+c"; ""]).
  { apply H; [right; left; reflexivity | reflexivity]. }
  vm_compute in Hin. intuition discriminate.
Qed.

Example replaced_line_is_shown_under_new_start :
  annotate_with_diff diff_two listing_two
  = Ok ["p.py"; "1:+x"; "2:a"; "3:-b"; "3:+c"; ""]
  /\ old_start_of "@@ -2 +3 @@" = Ok 2
  /\ new_start_of "@@ -2 +3 @@" = Ok 3.
Proof. repeat split; vm_compute; reflexivity. Qed.

(** Lines removed at the top of the file come after the path and before
    the first line. *)
Example deletion_at_the_top :
  annotate_with_diff diff_top_deletion ["p.py"; "1:a"; ""]
  = Ok ["p.py"; "0:-x"; "1:a"; ""]
  /\ Forall well_formed_hunk hunks_top_deletion
  /\ Forall anchored hunks_top_deletion.
Proof.
  split; [vm_compute; reflexivity|]. split.
  - repeat constructor; try (vm_compute; reflexivity); try discriminate.
  - repeat constructor.
Qed.

(** A hunk that only removes lines below the top of the file is not
    anchored: its header gives as new start the number of the line before
    the removed ones, and the weaver, which takes the new start for the
    place of the hunk, puts the removed line before that line. *)
Example deletion_below_the_top :
  annotate_with_diff diff_deletion listing_deletion = Ok ["p.py"; "1:-b"; "1:a"; ""]
  /\ ~ Forall anchored hunks_deletion.
Proof.
  split; [vm_compute; reflexivity|].
  intros H. apply Forall_inv in H. specialize (H eq_refl). discriminate H.
Qed.

(** With the three context lines of a default [git diff] the parser takes
    the start of the context for the start of the change. *)
Example context_lines_shift_the_tags :
  annotate_with_diff
    (unlines (hdr ++ ["@@ -1,4 +1,4 @@"; " l1"; " l2"; " l3"; "-l4"; "+X"]))
    ["p.py"; "1:l1"; "2:l2"; "3:l3"; "4:X"; ""]
  = Ok ["p.py"; "1:-l4"; "1:+X"; "2:l2"; "3:l3"; "4:X"; ""].
Proof. vm_compute. reflexivity. Qed.

(** ** Further properties of the diff parser *)

Lemma insert_by_start_sorted (a : DiffAnnotation) (l : list DiffAnnotation) :
  StronglySorted (fun x y => start x <= start y) l ->
  StronglySorted (fun x y => start x <= start y) (insert_by_start a l).
Proof.
  induction 1 as [|b l Hl IH Hb]; cbn [insert_by_start].
  - repeat constructor.
  - destruct (Z.leb_spec (start a) (start b)) as [Hle|Hgt].
    + constructor; [now constructor|].
      constructor; [exact Hle|].
      eapply List.Forall_impl; [|exact Hb]. intros c Hc. cbv beta in *. lia.
    + constructor; [exact IH|].
      eapply Permutation_Forall; [symmetry; apply insert_by_start_perm|].
      constructor; [lia | exact Hb].
Qed.

Lemma sort_by_start_sorted (l : list DiffAnnotation) :
  StronglySorted (fun x y => start x <= start y) (sort_by_start l).
Proof.
  induction l as [|a l IH]; cbn [sort_by_start]; [constructor|].
  now apply insert_by_start_sorted.
Qed.

(** X1.  The annotations that the parser returns are in ascending order of
    start, whatever the order of the hunks in the diff. *)
Theorem parsed_annotations_ascend (diff : string) (annotations : list DiffAnnotation) :
  _parse_diff diff = Ok annotations ->
  StronglySorted (fun a b => start a <= start b) annotations.
Proof.
  unfold _parse_diff. intros H.
  destruct (parse_lines ([], None) (skipn 4 (PyStr.splitlines diff))) as [st|e];
    cbn [rbind] in H; [|discriminate].
  injection H as <-. apply sort_by_start_sorted.
Qed.

Lemma parsed_annotations_ascend_witness :
  StronglySorted (fun a b => start a <= start b)
    [mkDiffAnnotation 1 ["+x"]; mkDiffAnnotation 3 ["-b"; "+c"]].
Proof.
  apply (parsed_annotations_ascend
           (unlines (hdr ++ ["@@ -2 +3 @@"; "-b"; "+c"; "@@ -0,0 +1 @@"; "+x"]))).
  vm_compute. reflexivity.
Defined.

Lemma flush_starts (st : parse_state) :
  map start (flush st)
  = map start (fst st) ++ match snd st with Some a => [start a] | None => [] end.
Proof.
  unfold flush. destruct (snd st) as [a|].
  - now rewrite List.map_app.
  - now rewrite app_nil_r.
Qed.

Lemma parse_lines_starts (lines : list string) :
  forall st st',
    parse_lines st lines = Ok st' ->
    map (fun a => Ok (start a)) (flush st')
    = map (fun a => Ok (start a)) (flush st)
      ++ map new_start_of (List.filter is_hunk_header lines).
Proof.
  induction lines as [|line rest IH]; intros st st' H; cbn [parse_lines] in H;
    cbn [List.filter].
  - injection H as <-. now rewrite app_nil_r.
  - destruct (parse_line_cases st line)
      as [(Hh & Hc & E)|[(Hh & Hc & E)|(Hh & Hc & E)]];
      rewrite E in H; rewrite Hh; cbn [rbind] in H.
    + now apply IH.
    + destruct (new_start_of line) as [n|e] eqn:En; cbn [rbind] in H; [|discriminate].
      apply IH in H. rewrite H. cbn [map]. rewrite En.
      change (flush (flush st, Some (mkDiffAnnotation n [])))
        with (flush st ++ [mkDiffAnnotation n []]).
      rewrite List.map_app. cbn [map start]. now rewrite <- app_assoc.
    + destruct (snd st) as [a|] eqn:Ea; [|discriminate].
      apply IH in H. rewrite H. f_equal.
      unfold flush. cbn [snd fst]. rewrite Ea.
      rewrite !List.map_app. reflexivity.
Qed.

(** X2.  The parser returns one annotation for each hunk header of the diff, and
    the starts of the annotations are the starts read from the headers. *)
Theorem one_annotation_per_hunk_header (diff : string)
  (annotations : list DiffAnnotation) :
  _parse_diff diff = Ok annotations ->
  Permutation (map (fun a => Ok (start a)) annotations)
    (map new_start_of (List.filter is_hunk_header (body_of diff)))
  /\ length annotations = length (List.filter is_hunk_header (body_of diff)).
Proof.
  unfold _parse_diff. fold (body_of diff). intros H.
  destruct (parse_lines ([], None) (body_of diff)) as [st|e] eqn:E;
    cbn [rbind] in H; [|discriminate].
  injection H as <-.
  apply parse_lines_starts in E. cbn [flush snd fst map app] in E.
  assert (Hperm : Permutation (map (fun a => Ok (start a)) (sort_by_start (flush st)))
                    (map new_start_of (List.filter is_hunk_header (body_of diff)))).
  { rewrite <- E. apply Permutation_map. apply sort_by_start_perm. }
  split; [exact Hperm|].
  apply Permutation_length in Hperm. now rewrite !List.length_map in Hperm.
Qed.

Lemma one_annotation_per_hunk_header_witness :
  length [mkDiffAnnotation 1 ["+x"]; mkDiffAnnotation 3 ["-b"; "+c"]]
  = length (List.filter is_hunk_header (body_of diff_two)).
Proof.
  apply (one_annotation_per_hunk_header diff_two). vm_compute. reflexivity.
Defined.

Lemma parse_lines_ok_inv (lines : list string) :
  forall st st',
    parse_lines st lines = Ok st' ->
    Forall header_is_parsable lines
    /\ (snd st = None -> premature_contentb lines = false).
Proof.
  induction lines as [|line rest IH]; intros st st' H; cbn [parse_lines] in H;
    cbn [premature_contentb].
  - split; [constructor | reflexivity].
  - destruct (parse_line_cases st line)
      as [(Hh & Hc & E)|[(Hh & Hc & E)|(Hh & Hc & E)]];
      rewrite E in H; rewrite Hh, ?Hc; cbn [rbind orb] in H |- *.
    + destruct (IH _ _ H) as [Hall Hpre]. split; [|exact Hpre].
      constructor; [|exact Hall]. intros Hx. congruence.
    + destruct (new_start_of line) as [n|e] eqn:En; cbn [rbind] in H; [|discriminate].
      destruct (IH _ _ H) as [Hall _]. split; [|reflexivity].
      constructor; [|exact Hall]. intros _. eauto.
    + destruct (snd st) as [a|] eqn:Ea; [|discriminate].
      destruct (IH _ _ H) as [Hall _]. split; [|discriminate].
      constructor; [|exact Hall]. intros Hx. congruence.
Qed.

(** X3.  The parser accepts a diff exactly when no content line comes before any
    hunk header and every hunk header carries a new range that can be read;
    and it fails in three ways only: with its own error for a content line
    that comes too early, with [IndexError] for a header of fewer than three
    fields, with [ValueError] for a start that is no number. *)
Theorem parse_accepts_iff (diff : string) :
  ((exists annotations, _parse_diff diff = Ok annotations)
   <-> ~ premature_content (body_of diff)
       /\ Forall header_is_parsable (body_of diff))
  /\ (forall e, _parse_diff diff = Raise e ->
        e = UserError "Invalid diff" \/ e = IndexError \/ e = ValueError).
Proof.
  unfold _parse_diff. fold (body_of diff). split; [split|].
  - intros [annotations H].
    destruct (parse_lines ([], None) (body_of diff)) as [st|e] eqn:E;
      cbn [rbind] in H; [|discriminate].
    apply parse_lines_ok_inv in E as [Hall Hpre]. split; [|exact Hall].
    intros Hp. apply premature_content_reflect in Hp.
    rewrite (Hpre eq_refl) in Hp. discriminate.
  - intros [Hno Hall].
    destruct (parse_lines_returns (body_of diff) ([], None)) as [st ->]; auto.
    + intros _. destruct (premature_contentb (body_of diff)) eqn:E; [|reflexivity].
      apply premature_content_reflect in E. contradiction.
    + cbn [rbind]. eauto.
  - intros e H.
    destruct (parse_lines ([], None) (body_of diff)) as [st|e'] eqn:E;
      cbn [rbind] in H; [discriminate|]. injection H as ->.
    revert E. generalize (([], None) : parse_state).
    induction (body_of diff) as [|line rest IH]; intros st E; cbn [parse_lines] in E;
      [discriminate|].
    destruct (parse_line_cases st line)
      as [(_ & _ & El)|[(_ & _ & El)|(_ & _ & El)]]; rewrite El in E.
    + cbn [rbind] in E. eauto.
    + destruct (new_start_of_outcome line) as [[n En]|[En|En]];
        rewrite En in E; cbn [rbind] in E.
      * eauto.
      * injection E as <-. auto.
      * injection E as <-. auto.
    + destruct (snd st); cbn [rbind] in E; [eauto|].
      injection E as <-. auto.
Qed.

Lemma parse_accepts_iff_witness :
  ~ premature_content (body_of diff_fixture)
  /\ Forall header_is_parsable (body_of diff_fixture).
Proof.
  apply (proj1 (parse_accepts_iff diff_fixture)).
  eexists. vm_compute. reflexivity.
Defined.

Lemma parse_lines_idle (lines : list string) :
  forall st,
    Forall (fun line => is_hunk_header line = false /\ is_content_line line = false)
      lines ->
    parse_lines st lines = Ok st.
Proof.
  induction lines as [|line rest IH]; intros st Hall; cbn [parse_lines]; [reflexivity|].
  apply Forall_cons_iff in Hall as [[Hh Hc] Hall].
  destruct (parse_line_cases st line)
    as [(_ & _ & ->)|[(Hx & _)|(_ & Hx & _)]]; try congruence.
  cbn [rbind]. now apply IH.
Qed.

(** X4.  A diff whose body has neither a hunk header nor a content line (the
    empty diff, a diff of its four header lines, a diff of context only)
    parses to no annotation, and a listing annotated with it comes back as
    it is. *)
Theorem diff_without_hunks (diff : string) (file_message : list string) :
  Forall (fun line => is_hunk_header line = false /\ is_content_line line = false)
    (body_of diff) ->
  _parse_diff diff = Ok []
  /\ annotate_with_diff diff file_message = Ok file_message.
Proof.
  intros Hall.
  assert (Hparse : _parse_diff diff = Ok []).
  { unfold _parse_diff. fold (body_of diff).
    now rewrite (parse_lines_idle _ _ Hall). }
  split; [exact Hparse|].
  unfold annotate_with_diff. rewrite Hparse. cbn [rbind].
  unfold _annotate_file_message. cbn [weave_annotations rbind active_index
                                       annotated_message app].
  rewrite tail_copy_skipn by lia. reflexivity.
Qed.

Lemma diff_without_hunks_witness :
  annotate_with_diff EmptyString ["p.py"; "1:a"; ""] = Ok ["p.py"; "1:a"; ""]
  /\ _parse_diff (unlines (hdr ++ [" context"; "\ No newline at end of file"])) = Ok [].
Proof.
  split.
  - apply (diff_without_hunks EmptyString ["p.py"; "1:a"; ""]). constructor.
  - apply (diff_without_hunks (unlines (hdr ++ [" context"; "\ No newline at end of file"]))
             []).
    repeat constructor.
Defined.

(** X5.  Parsing gives back the hunks that a diff is made of: for hunks whose
    header can be read and whose lines are content lines, the parser
    returns the annotation of each hunk, its removed and added lines in
    their order, sorted by start. *)
Theorem parse_gives_back_hunks (diff : string) (hunks : list hunk) :
  body_of diff = flat_map hunk_lines hunks ->
  Forall well_formed_hunk hunks ->
  _parse_diff diff = Ok (sort_by_start (map annotation_of hunks)).
Proof.
  intros Hbody Hwf. unfold _parse_diff. fold (body_of diff). rewrite Hbody.
  destruct (parse_lines_hunks hunks ([], None) Hwf) as (st & -> & Hflush).
  cbn [rbind]. now rewrite Hflush.
Qed.

Lemma parse_gives_back_hunks_witness :
  _parse_diff (unlines (hdr ++ flat_map hunk_lines (rev hunks_two)))
  = Ok [mkDiffAnnotation 1 ["+x"]; mkDiffAnnotation 3 ["-b"; "+c"]].
Proof.
  apply (parse_gives_back_hunks
           (unlines (hdr ++ flat_map hunk_lines (rev hunks_two))) (rev hunks_two)).
  - vm_compute. reflexivity.
  - apply Forall_rev. exact well_formed_hunks_two.
Defined.

(** ** Further properties of the weaver *)

Lemma weave_line_outcome (a_start : Z) (st : weave_state * option Z) (line : string) :
  (line = EmptyString /\ weave_line a_start st line = Raise IndexError)
  \/ (line <> EmptyString /\ exists st', weave_line a_start st line = Ok st').
Proof.
  destruct st as [w i]. destruct line as [|sign r]; [left; auto|right].
  split; [discriminate|]. unfold weave_line.
  destruct (Ascii.eqb sign "+"); [eauto|].
  destruct (Ascii.eqb sign "-"); eauto.
Qed.

Lemma weave_lines_outcome (a_start : Z) (lines : list string) :
  forall st,
    (Forall (fun line => line <> EmptyString) lines
     /\ exists st', weave_lines a_start st lines = Ok st')
    \/ (~ Forall (fun line => line <> EmptyString) lines
        /\ weave_lines a_start st lines = Raise IndexError).
Proof.
  induction lines as [|line rest IH]; intros st; cbn [weave_lines].
  - left. split; [constructor | eauto].
  - destruct (weave_line_outcome a_start st line) as [[-> ->]|[Hne [st' ->]]];
      cbn [rbind].
    + right. split; [|reflexivity]. intros H. now apply Forall_inv in H.
    + destruct (IH st') as [[Hall Hok]|[Hno Herr]].
      * left. split; [now constructor | exact Hok].
      * right. split; [|exact Herr]. intros H. apply Hno.
        now apply Forall_inv_tail in H.
Qed.

Lemma weave_annotation_outcome (code_message : list string) (w : weave_state)
  (a : DiffAnnotation) :
  (weavable code_message a /\ exists w', weave_annotation code_message w a = Ok w')
  \/ (~ weavable code_message a
      /\ weave_annotation code_message w a = Raise IndexError).
Proof.
  unfold weave_annotation, weavable.
  set (out1 := if active_index w <? start a then _ else _).
  destruct (Z.eqb_spec (start a) 0) as [Hz|Hz].
  - destruct code_message as [|path listing]; cbn [rbind].
    + right. split; [|reflexivity]. intros [_ H]. now apply H.
    + destruct (weave_lines_outcome (start a) (message a)
                  (mkWeave (start a + 1) (out1 ++ [path]), None))
        as [[Hall [st' ->]]|[Hno ->]]; cbn [rbind].
      * left. split; [split; [exact Hall | discriminate] | eauto].
      * right. split; [|reflexivity]. intros [H _]. contradiction.
  - cbn [rbind].
    destruct (weave_lines_outcome (start a) (message a) (mkWeave (start a) out1, None))
      as [[Hall [st' ->]]|[Hno ->]]; cbn [rbind].
    + left. split; [split; [exact Hall | intros _; exact Hz] | eauto].
    + right. split; [|reflexivity]. intros [H _]. contradiction.
Qed.

Lemma weave_annotations_outcome (code_message : list string)
  (annotations : list DiffAnnotation) :
  forall w,
    (Forall (weavable code_message) annotations
     /\ exists w', weave_annotations code_message w annotations = Ok w')
    \/ (~ Forall (weavable code_message) annotations
        /\ weave_annotations code_message w annotations = Raise IndexError).
Proof.
  induction annotations as [|a rest IH]; intros w; cbn [weave_annotations].
  - left. split; [constructor | eauto].
  - destruct (weave_annotation_outcome code_message w a) as [[Ha [w1 ->]]|[Hno ->]];
      cbn [rbind].
    + destruct (IH w1) as [[Hall Hok]|[Hno Herr]].
      * left. split; [now constructor | exact Hok].
      * right. split; [|exact Herr]. intros H. apply Hno.
        now apply Forall_inv_tail in H.
    + right. split; [|reflexivity]. intros H. now apply Forall_inv in H.
Qed.

(** X6.  The weaver returns a listing exactly when no line of a message is empty
    and no annotation starts at 0 over an empty listing; in every other
    case it raises [IndexError], from [line[0]] or from [code_message[0]]. *)
Theorem weave_returns_iff (code_message : list string)
  (annotations : list DiffAnnotation) :
  ((exists out, _annotate_file_message code_message annotations = Ok out)
   <-> Forall (weavable code_message) annotations)
  /\ (forall e, _annotate_file_message code_message annotations = Raise e ->
        e = IndexError).
Proof.
  unfold _annotate_file_message.
  destruct (weave_annotations_outcome code_message annotations (mkWeave 0 []))
    as [[Hall [w' ->]]|[Hno ->]]; cbn [rbind].
  - split; [split; eauto|]. intros e H. discriminate H.
  - split; [split|].
    + intros [out H]. discriminate H.
    + intros H. contradiction.
    + intros e H. now injection H as <-.
Qed.

Lemma weave_returns_iff_witness :
  (exists out,
     _annotate_file_message ["p.py"; "1:a"; ""] [mkDiffAnnotation 0 ["-z"]] = Ok out)
  /\ _annotate_file_message [] [mkDiffAnnotation 0 ["-z"]] = Raise IndexError.
Proof.
  split.
  - apply (proj1 (weave_returns_iff ["p.py"; "1:a"; ""] [mkDiffAnnotation 0 ["-z"]])).
    repeat constructor; discriminate.
  - destruct (_annotate_file_message [] [mkDiffAnnotation 0 ["-z"]]) as [out|e] eqn:E.
    + discriminate E.
    + f_equal.
      apply (proj2 (weave_returns_iff [] [mkDiffAnnotation 0 ["-z"]]) e E).
Defined.

Lemma parsed_lines_not_empty (diff : string) (annotations : list DiffAnnotation) :
  _parse_diff diff = Ok annotations ->
  Forall (fun a => Forall (fun line => line <> EmptyString) (message a)) annotations.
Proof.
  unfold _parse_diff. fold (body_of diff). intros H.
  destruct (parse_lines ([], None) (body_of diff)) as [st|e] eqn:E;
    cbn [rbind] in H; [|discriminate].
  injection H as <-.
  apply parse_lines_messages in E. cbn [flush snd fst flat_map app] in E.
  apply List.Forall_forall. intros a Ha.
  apply List.Forall_forall. intros line Hline.
  assert (Hin : In line (List.filter is_content_line (body_of diff))).
  { rewrite <- E. apply in_flat_map. exists a. split; [|exact Hline].
    eapply Permutation_in; [apply sort_by_start_perm | exact Ha]. }
  apply filter_In in Hin as [_ Hc].
  intros ->. discriminate Hc.
Qed.

(** X7.  Over a listing that is not empty, annotating with a diff fails only
    where the parser fails: what the parser returns is always woven, and
    the result is the closed form of the weaver. *)
Theorem annotate_fails_only_in_parsing (diff : string) (file_message : list string)
  (annotations : list DiffAnnotation) :
  file_message <> [] ->
  _parse_diff diff = Ok annotations ->
  annotate_with_diff diff file_message = Ok (woven file_message 0 annotations).
Proof.
  intros Hlisting Hparse. unfold annotate_with_diff. rewrite Hparse. cbn [rbind].
  unfold _annotate_file_message.
  destruct (weave_annotations_woven file_message annotations (mkWeave 0 [])
              Hlisting (parsed_lines_not_empty _ _ Hparse)) as (w & -> & Hfinal).
  cbn [rbind annotated_message active_index app] in *. f_equal.
  destruct (active_index w <? Z.of_nat (length file_message));
    [exact Hfinal | now rewrite app_nil_r in Hfinal].
Qed.

Lemma annotate_fails_only_in_parsing_witness :
  annotate_with_diff diff_two listing_two
  = Ok ["p.py"; "1:+x"; "2:a"; "3:-b"; "3:+c"; ""].
Proof.
  apply (annotate_fails_only_in_parsing diff_two listing_two
           [mkDiffAnnotation 1 ["+x"]; mkDiffAnnotation 3 ["-b"; "+c"]]).
  - discriminate.
  - vm_compute. reflexivity.
Defined.

(** X8.  The path stays on the first line: when no annotation starts below 0,
    the woven listing begins with the first entry of the listing. *)
Theorem path_stays_first (path : string) (listing : list string)
  (annotations : list DiffAnnotation) :
  Forall (fun a => 0 <= start a) annotations ->
  Forall (fun a => Forall (fun line => line <> EmptyString) (message a)) annotations ->
  exists rest,
    _annotate_file_message (path :: listing) annotations = Ok (path :: rest).
Proof.
  intros Hpos Hne. unfold _annotate_file_message.
  destruct (weave_annotations_woven (path :: listing) annotations (mkWeave 0 []))
    as (w & -> & Hfinal); [discriminate | exact Hne |].
  cbn [rbind annotated_message active_index app] in *.
  assert (Hwoven : exists rest, woven (path :: listing) 0 annotations = path :: rest).
  { destruct annotations as [|a more]; cbn [woven].
    - rewrite tail_copy_skipn by lia. cbn. eauto.
    - apply Forall_inv in Hpos.
      destruct (Z.eqb_spec (start a) 0) as [Hz|Hz].
      + rewrite Hz. cbn. eauto.
      + destruct (Z.ltb_spec 0 (start a)) as [Hlt|Hge]; [|lia].
        rewrite slice_segment by lia. unfold segment.
        rewrite Z.sub_0_r. cbn [Z.to_nat skipn].
        destruct (Z.to_nat (start a)) as [|n] eqn:En; [lia|].
        cbn. eauto. }
  destruct Hwoven as [rest Hrest]. exists rest. f_equal.
  rewrite <- Hrest.
  destruct (active_index w <? Z.of_nat (length (path :: listing)));
    [exact Hfinal | now rewrite app_nil_r in Hfinal].
Qed.

Lemma path_stays_first_witness :
  exists rest,
    _annotate_file_message ["p.py"; "1:a"; ""] [mkDiffAnnotation 0 ["-z"]]
    = Ok ("p.py" :: rest).
Proof.
  apply (path_stays_first "p.py" ["1:a"; ""] [mkDiffAnnotation 0 ["-z"]]).
  - repeat constructor. discriminate.
  - repeat constructor; discriminate.
Defined.

(** ** Properties of [get_diff_context] *)

Lemma startswith_append (p s : string) : PyStr.startswith (p +:+ s) p = true.
Proof.
  unfold PyStr.startswith. induction p as [|c p IH]; [now destruct s|].
  change (String.prefix (String c p) (String c (p +:+ s)) = true).
  cbn [String.prefix]. destruct (ascii_dec c c); [exact IH | congruence].
Qed.

Lemma treeish_type_outcome (git : list string -> option string) (treeish : string) :
  (exists ty, _get_treeish_type git treeish = Ok ty)
  \/ (truthy (_git_command git ["cat-file"; "-t"; treeish]) = false
      /\ _get_treeish_type git treeish
         = Raise (UserError ("Invalid treeish: " +:+ treeish)))
  \/ (exists object_type,
        _get_treeish_type git treeish
        = Raise (UserError ("Unsupported treeish type: " +:+ object_type))).
Proof.
  unfold _get_treeish_type.
  destruct (truthy (_git_command git ["cat-file"; "-t"; treeish])) eqn:E; cbn [negb].
  - destruct (String.eqb _ "commit").
    + left. destruct (PyStr.contains "~" treeish || PyStr.contains "^" treeish);
        [now exists relative|].
      destruct (truthy (_git_command git ["show-ref"; "--heads"; treeish]));
        [now exists branch | now exists commit].
    + right; right. eauto.
  - right; left. auto.
Qed.

(** X9.  [get_diff_context] refuses a diff and a pull-request diff given together,
    with an error that it raises in no other case; and a target that [git]
    does not know as an object is refused as an invalid treeish. *)
Theorem diff_context_errors (git : list string -> option string)
  (get_treeish_metadata : string -> string * string) (diff pr_diff : option string) :
  (get_diff_context git get_treeish_metadata diff pr_diff
   = Raise (UserError "Cannot specify more than one type of diff.")
   <-> truthy diff && truthy pr_diff = true)
  /\ (forall treeish,
        truthy diff && truthy pr_diff = false ->
        (if truthy diff then diff else pr_diff) = Some treeish ->
        truthy (Some treeish) = true ->
        truthy (_git_command git ["cat-file"; "-t"; treeish]) = false ->
        get_diff_context git get_treeish_metadata diff pr_diff
        = Raise (UserError ("Invalid treeish: " +:+ treeish))).
Proof.
  unfold get_diff_context. split; [split|].
  - destruct (truthy diff && truthy pr_diff); [reflexivity|]. intros H. exfalso.
    destruct (truthy (if truthy diff then diff else pr_diff)); cbn [negb] in H;
      [|discriminate].
    set (t := default EmptyString (if truthy diff then diff else pr_diff)) in *.
    destruct (treeish_type_outcome git t) as [[ty E]|[[_ E]|[ot E]]];
      rewrite E in H; cbn [rbind] in H; try discriminate H.
    destruct (truthy pr_diff); cbn [rbind] in H; [|discriminate H].
    destruct (_git_command git _) as [[|c base]|]; cbn [rbind] in H; discriminate H.
  - intros ->. reflexivity.
  - intros treeish Hboth Htarget Htruthy Hgit. rewrite Hboth, Htarget, Htruthy.
    change (default EmptyString (Some treeish)) with treeish. cbn [negb].
    unfold _get_treeish_type. rewrite Hgit. reflexivity.
Qed.

Lemma diff_context_errors_witness :
  get_diff_context demo_git demo_metadata (Some "HEAD") (Some "main")
  = Raise (UserError "Cannot specify more than one type of diff.")
  /\ get_diff_context demo_git demo_metadata (Some "invalid") None
     = Raise (UserError "Invalid treeish: invalid").
Proof.
  split.
  - apply (proj1 (diff_context_errors demo_git demo_metadata (Some "HEAD") (Some "main"))).
    reflexivity.
  - apply (proj2 (diff_context_errors demo_git demo_metadata (Some "invalid") None)
             "invalid"); reflexivity.
Defined.

(** X10.  A context that [get_diff_context] returns is the default one, on
    [HEAD], when neither a diff nor a pull-request diff is given; otherwise
    its name ends with the first eight characters of the hash of its target
    and the summary of that commit; for a diff the target is the diff
    itself, for a pull-request diff it is the merge base that [git] gives,
    and the name then begins with [Merge-base]. *)
Theorem diff_context_names_its_target (git : list string -> option string)
  (get_treeish_metadata : string -> string * string) (diff pr_diff : option string)
  (ctx : DiffContext) :
  get_diff_context git get_treeish_metadata diff pr_diff = Ok ctx ->
  (truthy diff = false /\ truthy pr_diff = false
   /\ ctx = mkDiffContext "HEAD" "HEAD (last commit)")
  \/ exists prefix,
       dc_name ctx
       = prefix +:+ String.substring 0 8 (fst (get_treeish_metadata (target ctx)))
         +:+ ": " +:+ snd (get_treeish_metadata (target ctx))
       /\ ((truthy diff = true /\ diff = Some (target ctx)
            /\ (prefix = EmptyString
                \/ prefix = "Branch " +:+ target ctx +:+ ": "
                \/ prefix = target ctx +:+ ": "))
           \/ (truthy diff = false /\ truthy pr_diff = true
               /\ _git_command git ["merge-base"; "HEAD"; default EmptyString pr_diff]
                  = Some (target ctx)
               /\ PyStr.startswith prefix "Merge-base " = true)).
Proof.
  unfold get_diff_context. intros H.
  destruct (truthy diff) eqn:Hd; destruct (truthy pr_diff) eqn:Hp;
    cbn [andb negb] in H; try discriminate H.
  - (* a diff *)
    cbn iota in H; rewrite ?Hd, ?Hp in H. cbn [negb] in H.
    destruct diff as [[|c d]|]; try discriminate Hd.
    change (default EmptyString (Some (String c d))) with (String c d) in H.
    destruct (_get_treeish_type git (String c d)) as [ty|e]; cbn [rbind] in H;
      [|discriminate H].
    injection H as <-. right. cbn [target dc_name].
    destruct ty; eexists; (split; [reflexivity|]); left; auto.
  - (* a pull-request diff *)
    cbn iota in H; rewrite ?Hd, ?Hp in H. cbn [negb] in H.
    destruct (_get_treeish_type git (default EmptyString pr_diff)) as [ty|e];
      cbn [rbind] in H; [|discriminate H].
    destruct (_git_command git ["merge-base"; "HEAD"; default EmptyString pr_diff])
      as [[|c base]|] eqn:Hbase; cbn [rbind] in H; try discriminate H.
    injection H as <-. right. cbn [target dc_name].
    eexists. split; [reflexivity|]. right.
    split; [reflexivity|]. split; [reflexivity|]. split; [reflexivity|].
    apply startswith_append.
  - (* neither *)
    cbn iota in H; rewrite ?Hd, ?Hp in H. cbn [negb] in H. injection H as <-. left. auto.
Qed.

Lemma diff_context_names_its_target_witness :
  get_diff_context demo_git demo_metadata None (Some "main")
  = Ok (mkDiffContext "0123456789abcdef" "Merge-base Branch main: 01234567: add testbed")
  /\ exists prefix,
       "Merge-base Branch main: 01234567: add testbed"
       = prefix +:+ "01234567" +:+ ": " +:+ "add testbed".
Proof.
  assert (Hrun : get_diff_context demo_git demo_metadata None (Some "main")
                 = Ok (mkDiffContext "0123456789abcdef"
                         "Merge-base Branch main: 01234567: add testbed"))
    by (vm_compute; reflexivity).
  split; [exact Hrun|].
  destruct (diff_context_names_its_target demo_git demo_metadata None (Some "main") _ Hrun)
    as [(_ & Hp & _)|(prefix & Hname & _)]; [discriminate Hp|].
  exists prefix. exact Hname.
Defined.
